(** * FinancialScrapper: discovery, scraping and AUM extraction pipeline

    A shallow embedding of the Python sources under [app/] and the
    properties of the pipeline stated over it.

    Python strings are sequences of Unicode code points.  They are modelled
    as lists of code points ([N]); the literals of the sources are written
    as UTF-8 Rocq strings and decoded by [u].

    Character tables.  [str.lower], [str.upper], [str.isalpha],
    [str.isdigit], [str.isspace], the regular-expression classes [\s],
    [\d] and [\w] and the comparison of characters under [re.IGNORECASE]
    follow CPython's Unicode database on U+0000..U+00FF.  Any other code
    point is treated as a caseless symbol that is neither a letter, a digit
    nor a space, which is what CPython does for the euro sign U+20AC and is
    not what it does for the letters, digits and spaces beyond U+00FF (the
    Arabic-Indic digits, the long s, the Kelvin sign, the dotless i, the em
    space, ...).  [within_tables] holds of the texts made of the code
    points U+0000..U+00FF and of the euro sign, on which the tables are
    CPython's; a property that depends on the tables beyond the fact that
    they are some tables is stated for such texts. *)

From Stdlib Require Import ZArith NArith Ascii String Bool Lia Permutation.
From Stdlib Require Import SpecFloat.
From stdpp Require Import base list gmap sets.

(* ===================================================================== *)
(** * Python strings *)
(* ===================================================================== *)

Module PyStr.

Local Open Scope N_scope.

Abbreviation char := N.
Abbreviation pystr := (list N).

(** ** Literals: UTF-8 decoding of a Rocq string *)

Fixpoint bytes_of_string (s : string) : list N :=
  match s with
  | EmptyString => []
  | String a s' => N_of_ascii a :: bytes_of_string s'
  end.

Fixpoint utf8_decode (bs : list N) : pystr :=
  match bs with
  | [] => []
  | b0 :: rest =>
    if b0 <? 128 then b0 :: utf8_decode rest
    else if b0 <? 224 then
      match rest with
      | b1 :: rest1 => ((b0 - 192) * 64 + (b1 - 128)) :: utf8_decode rest1
      | _ => []
      end
    else if b0 <? 240 then
      match rest with
      | b1 :: b2 :: rest2 =>
        ((b0 - 224) * 4096 + (b1 - 128) * 64 + (b2 - 128)) :: utf8_decode rest2
      | _ => []
      end
    else
      match rest with
      | b1 :: b2 :: b3 :: rest3 =>
        ((b0 - 240) * 262144 + (b1 - 128) * 4096 + (b2 - 128) * 64 + (b3 - 128))
          :: utf8_decode rest3
      | _ => []
      end
  end.

Definition u (s : string) : pystr := utf8_decode (bytes_of_string s).

Definition in_range (lo hi c : N) : bool := (lo <=? c) && (c <=? hi).

(** ** Character classes (CPython's tables on U+0000..U+00FF) *)

(** [Py_UNICODE_ISDECIMAL], the class [\d] of a [str] pattern. *)
Definition isdecimal_char (c : char) : bool := in_range 48 57 c.

(** [Py_UNICODE_ISDIGIT]: the decimal digits and the superscripts 1, 2, 3. *)
Definition isdigit_char (c : char) : bool :=
  isdecimal_char c || in_range 178 179 c || (c =? 185).

(** [Py_UNICODE_ISNUMERIC]: the digits and the vulgar fractions. *)
Definition isnumeric_char (c : char) : bool :=
  isdigit_char c || in_range 188 190 c.

(** [Py_UNICODE_ISALPHA]: categories Lu, Ll, Lt, Lm, Lo. *)
Definition isalpha_char (c : char) : bool :=
  in_range 65 90 c || in_range 97 122 c || (c =? 170) || (c =? 181)
  || (c =? 186) || in_range 192 214 c || in_range 216 246 c
  || in_range 248 255 c.

(** [Py_UNICODE_ISSPACE], also the class [\s]. *)
Definition isspace_char (c : char) : bool :=
  in_range 9 13 c || in_range 28 32 c || (c =? 133) || (c =? 160).

(** The class [\w]: alphanumeric or underscore. *)
Definition isword_char (c : char) : bool :=
  isalpha_char c || isnumeric_char c || (c =? 95).

(** Line boundaries of [str.splitlines]. *)
Definition islinebreak_char (c : char) : bool :=
  in_range 10 13 c || in_range 28 30 c || (c =? 133) || (c =? 8232)
  || (c =? 8233).

(** The code points on which the tables of this section are CPython's:
    U+0000..U+00FF and the euro sign. *)
Definition tabled_char (c : char) : bool := (c <? 256) || (c =? 8364).

Definition within_tables (s : pystr) : bool := forallb tabled_char s.

Definition lower_char (c : char) : char :=
  if in_range 65 90 c || in_range 192 214 c || in_range 216 222 c
  then c + 32 else c.

(** [str.upper] uses the full case mapping: sharp s becomes two letters. *)
Definition upper_char (c : char) : pystr :=
  if in_range 97 122 c || in_range 224 246 c || in_range 248 254 c
  then [c - 32]
  else if c =? 223 then [83; 83]
  else if c =? 255 then [376]
  else if c =? 181 then [924]
  else [c].

(** ** String methods *)

Definition lower (s : pystr) : pystr := map lower_char s.

Definition upper (s : pystr) : pystr := flat_map upper_char s.

(** [s.isalpha()]: every character is alphabetic and there is at least one. *)
Definition isalpha (s : pystr) : bool :=
  match s with
  | [] => false
  | _ => forallb isalpha_char s
  end.

Definition char_in (c : char) (chars : pystr) : bool := existsb (N.eqb c) chars.

(** [s.lstrip(chars)]: drops the longest prefix made of characters of [chars]. *)
Fixpoint lstrip_chars (chars s : pystr) : pystr :=
  match s with
  | [] => []
  | c :: s' => if char_in c chars then lstrip_chars chars s' else s
  end.

Fixpoint lstrip (s : pystr) : pystr :=
  match s with
  | [] => []
  | c :: s' => if isspace_char c then lstrip s' else s
  end.

Definition rstrip (s : pystr) : pystr := rev (lstrip (rev s)).

(** [s.strip()] *)
Definition strip (s : pystr) : pystr := rstrip (lstrip s).

Fixpoint starts_with (p s : pystr) : bool :=
  match p, s with
  | [], _ => true
  | a :: p', b :: s' => (a =? b) && starts_with p' s'
  | _ :: _, [] => false
  end.

(** [sub in s] *)
Fixpoint contains (sub s : pystr) : bool :=
  starts_with sub s ||
  match s with
  | [] => false
  | _ :: s' => contains sub s'
  end.

(** [s.replace(old, new)] for a one-character [old]. *)
Definition replace_char (old : char) (new : pystr) (s : pystr) : pystr :=
  flat_map (fun c => if c =? old then new else [c]) s.

(** [sep.join(parts)] *)
Fixpoint join (sep : pystr) (parts : list pystr) : pystr :=
  match parts with
  | [] => []
  | [p] => p
  | p :: rest => p ++ sep ++ join sep rest
  end.

(** [s.splitlines()]: [cur] is the line being read, reversed.  A carriage
    return directly followed by a line feed is one boundary, and no empty
    line is produced after a final boundary. *)
Fixpoint splitlines_go (cur : pystr) (s : pystr) : list pystr :=
  match s with
  | [] => match cur with [] => [] | _ => [rev cur] end
  | c :: s' =>
    if islinebreak_char c then
      if c =? 13 then
        match s' with
        | 10 :: s'' => rev cur :: splitlines_go [] s''
        | _ => rev cur :: splitlines_go [] s'
        end
      else rev cur :: splitlines_go [] s'
    else splitlines_go (c :: cur) s'
  end.

Definition splitlines (s : pystr) : list pystr := splitlines_go [] s.

End PyStr.

(* ===================================================================== *)
(** * Regular expressions of the [re] module *)
(* ===================================================================== *)

(** The patterns of the sources use literals, classes, concatenation,
    ordered alternation and greedy repetition.  [matchk] is a backtracking
    matcher in continuation-passing style: alternatives are tried from left
    to right and a repetition takes as many iterations as it can before it
    gives one back, as the [sre] engine does. *)

Module Regex.
Import PyStr.

Inductive regex : Type :=
| Eps
| Chr (c : char)
| Cls (p : char -> bool)
| Cat (r1 r2 : regex)
| Alt (r1 r2 : regex)
| Star (r : regex).

Definition Plus (r : regex) : regex := Cat r (Star r).
Definition Opt (r : regex) : regex := Alt r Eps.

(** A literal string. *)
Fixpoint Str (s : pystr) : regex :=
  match s with
  | [] => Eps
  | [c] => Chr c
  | c :: s' => Cat (Chr c) (Str s')
  end.

(** Alternation of a non-empty list, leftmost first. *)
Fixpoint Alts (r : regex) (rs : list regex) : regex :=
  match rs with
  | [] => r
  | r' :: rs' => Alt r (Alts r' rs')
  end.

(** Comparison of a pattern character with a text character; under
    [re.IGNORECASE] both are compared through their lower case, which is
    what the [sre] engine does for the characters of [within_tables]
    texts (beyond them it also takes the long s for an s and the dotless i
    for an i). *)
Definition chr_matches (ignorecase : bool) (c x : char) : bool :=
  if ignorecase then N.eqb (lower_char c) (lower_char x) else N.eqb c x.

Section Matcher.
Context {A : Type}.
Variable ignorecase : bool.

Fixpoint matchk (r : regex) (s : pystr) (k : pystr -> option A) {struct r}
  : option A :=
  match r with
  | Eps => k s
  | Chr c =>
    match s with
    | x :: s' => if chr_matches ignorecase c x then k s' else None
    | [] => None
    end
  | Cls p =>
    match s with
    | x :: s' => if p x then k s' else None
    | [] => None
    end
  | Cat r1 r2 => matchk r1 s (fun s' => matchk r2 s' k)
  | Alt r1 r2 =>
    match matchk r1 s k with
    | Some a => Some a
    | None => matchk r2 s k
    end
  | Star r1 =>
    (fix iterate (n : nat) (s : pystr) {struct n} : option A :=
       match n with
       | O => k s
       | S n' =>
         match matchk r1 s (fun s' =>
                 if (length s' <? length s)%nat then iterate n' s' else None)
         with
         | Some a => Some a
         | None => k s
         end
       end) (length s) s
  end.

End Matcher.

(** One attempt at the start of [s]: the length of the match.  With
    [must_advance] an empty match is refused, and the engine backtracks into
    the remaining alternatives. *)
Definition match_len (ignorecase : bool) (r : regex) (must_advance : bool)
    (s : pystr) : option nat :=
  matchk ignorecase r s (fun rest =>
    let n := (length s - length rest)%nat in
    if must_advance && (n =? 0)%nat then None else Some n).

(** [pattern.search(s)]: the leftmost position at which an attempt
    succeeds, as the pair of the offset and the matched text. *)
Fixpoint search_from (ignorecase : bool) (r : regex) (pos : nat) (s : pystr)
    : option (nat * pystr) :=
  match match_len ignorecase r false s with
  | Some n => Some (pos, take n s)
  | None =>
    match s with
    | [] => None
    | _ :: s' => search_from ignorecase r (S pos) s'
    end
  end.

Definition search (ignorecase : bool) (r : regex) (s : pystr)
    : option (nat * pystr) :=
  search_from ignorecase r 0 s.

(** [re.sub(pattern, repl, s)] for a literal replacement.  [skip] counts the
    characters of the current match still to be dropped.  After an empty
    match the engine searches again from the same position with
    [must_advance], so that the next match there has to be non-empty; a
    position where no attempt succeeds is copied to the output. *)
Fixpoint sub_go (ignorecase : bool) (r : regex) (repl : pystr) (skip : nat)
    (s : pystr) {struct s} : pystr :=
  match skip with
  | S k =>
    match s with
    | [] => []
    | _ :: s' => sub_go ignorecase r repl k s'
    end
  | O =>
    match match_len ignorecase r false s with
    | Some O =>
      repl ++
      match match_len ignorecase r true s, s with
      | Some (S k), _ :: s' => repl ++ sub_go ignorecase r repl k s'
      | _, c :: s' => c :: sub_go ignorecase r repl 0 s'
      | _, [] => []
      end
    | Some (S k) =>
      repl ++
      match s with
      | _ :: s' => sub_go ignorecase r repl k s'
      | [] => []
      end
    | None =>
      match s with
      | c :: s' => c :: sub_go ignorecase r repl 0 s'
      | [] => []
      end
    end
  end.

Definition sub (ignorecase : bool) (r : regex) (repl s : pystr) : pystr :=
  sub_go ignorecase r repl 0 s.

End Regex.


(* ===================================================================== *)
(** * Python floats *)
(* ===================================================================== *)

(** A Python [float] is an IEEE 754 binary64 number.  The operations are
    those of the Standard Library's specification of floating-point
    arithmetic at precision 53 and maximal exponent 1024, with rounding to
    nearest, ties to even. *)

Module PyFloat.
Import PyStr.

Definition float := spec_float.

Definition prec : Z := 53.
Definition emax : Z := 1024.

Definition fmul (x y : float) : float := SFmul prec emax x y.

(** The float nearest to an integer. *)
Definition of_Z (z : Z) : float := binary_normalize prec emax z 0 false.

(** The float nearest to [n / 10 ^ k]: the division rounds the exact
    quotient of the two integers once. *)
Definition of_decimal (n : N) (k : nat) : float :=
  match n with
  | N0 => S754_zero false
  | Npos p =>
    SFdiv prec emax (S754_finite false p 0)
                    (S754_finite false (Z.to_pos (10 ^ Z.of_nat k)) 0)
  end.

(** Truth value of a float: every float but the two zeros is true. *)
Definition truthy (x : float) : bool :=
  match x with
  | S754_zero _ => false
  | _ => true
  end.

(** The exceptions [int(x)] raises on a float. *)
Inductive int_error : Type :=
| OverflowError   (* cannot convert float infinity to integer *)
| ValueError.     (* cannot convert float NaN to integer *)

(** [int(x)]: truncation towards zero. *)
Definition to_int (x : float) : int_error + Z :=
  match x with
  | S754_zero _ => inr 0%Z
  | S754_infinity _ => inl OverflowError
  | S754_nan => inl ValueError
  | S754_finite s m e =>
    let a := match e with
             | Zneg p => Z.shiftr (Zpos m) (Zpos p)
             | _ => Z.shiftl (Zpos m) e
             end in
    inr (if s then Z.opp a else a)
  end.

Definition digit_value (c : char) : N := (c - 48)%N.

(** The value of a run of decimal digits read after [acc]. *)
Definition digits_value (acc : N) (ds : pystr) : N :=
  fold_left (fun a c => (a * 10 + digit_value c)%N) ds acc.

(** The longest prefix of characters satisfying [p], and what follows it. *)
Fixpoint span (p : char -> bool) (s : pystr) : pystr * pystr :=
  match s with
  | [] => ([], [])
  | c :: s' =>
    if p c then let '(a, b) := span p s' in (c :: a, b) else ([], s)
  end.

(** [float(s)] for a string [s] made of digit characters ([str.isdigit])
    and dots, the only strings the normalizer passes to it.  The string is
    accepted when it is a run of decimal digits with at most one dot and at
    least one digit; a superscript digit, a second dot or the absence of
    digits raise [ValueError], here [None]. *)
Definition float_of_number_part (s : pystr) : option float :=
  let '(int_part, rest) := span isdecimal_char s in
  match rest with
  | [] =>
    match int_part with
    | [] => None
    | _ => Some (of_decimal (digits_value 0 int_part) 0)
    end
  | c :: frac =>
    if (c =? 46)%N && forallb isdecimal_char frac
       && negb (Nat.eqb (length int_part + length frac) 0)
    then Some (of_decimal (digits_value (digits_value 0 int_part) frac)
                          (length frac))
    else None
  end.

End PyFloat.

(* ===================================================================== *)
(** * app/utils/normalization.py *)
(* ===================================================================== *)

Module Normalization.
Import PyStr Regex PyFloat.

(** [COIN_SYMBOL_RE = re.compile(r"(|R\$|US\$|€|\$|\s)", re.IGNORECASE)] *)
Definition COIN_SYMBOL_RE : regex :=
  Alts Eps [Str (u "R$"); Str (u "US$"); Str (u "€"); Str (u "$");
            Cls isspace_char].

Definition MULTIPLIERS : list (pystr * float) :=
  [ (u "k", of_Z 1000);
    (u "mil", of_Z 1000);
    (u "thousand", of_Z 1000);
    (u "m", of_Z 1000000);
    (u "mi", of_Z 1000000);
    (u "milhão", of_Z 1000000);
    (u "milhões", of_Z 1000000);
    (u "million", of_Z 1000000);
    (u "b", of_Z 1000000000);
    (u "bi", of_Z 1000000000);
    (u "bilhão", of_Z 1000000000);
    (u "bilhões", of_Z 1000000000);
    (u "billion", of_Z 1000000000);
    (u "t", of_Z 1000000000000);
    (u "tri", of_Z 1000000000000);
    (u "trilhão", of_Z 1000000000000);
    (u "trilhões", of_Z 1000000000000);
    (u "trillion", of_Z 1000000000000) ].

(** [MULTIPLIERS[key]] when [key in MULTIPLIERS]. *)
Fixpoint dict_get {V : Type} (key : pystr) (d : list (pystr * V)) : option V :=
  match d with
  | [] => None
  | (k, v) :: d' => if bool_decide (k = key) then Some v else dict_get key d'
  end.

(** The loop that separates the numeric run from the multiplier token:
    the state is the pair [(number_part_str, multiplier_part_str)]. *)
Definition split_parts (text : pystr) : pystr * pystr :=
  fold_left
    (fun '(number_part_str, multiplier_part_str) chr =>
       if isdigit_char chr || (chr =? 46)%N
       then (number_part_str ++ [chr], multiplier_part_str)
       else (number_part_str, multiplier_part_str ++ [chr]))
    text ([], []).

(** The characters the symbol pattern removes wherever they stand: the
    dollar sign, the euro sign and the whitespace characters. *)
Definition is_symbol_char (c : char) : Prop :=
  c = 36%N \/ c = 8364%N \/ isspace_char c = true.

(** [re.sub(COIN_SYMBOL_RE, "", text).strip()] *)
Definition strip_symbols (text : pystr) : pystr :=
  strip (sub true COIN_SYMBOL_RE [] text).

Definition normalize_aum_value (raw_value : pystr) : option float :=
  let text := lower raw_value in
  if isalpha text then None
  else
    let text := strip_symbols text in
    let text :=
      if contains (u ".") text && contains (u ",") text
      then replace_char 44%N (u ".") (replace_char 46%N [] text)
      else replace_char 44%N (u ".") text in
    let '(number_part_str, multiplier_part_str) := split_parts text in
    match float_of_number_part number_part_str with
    | None => None
    | Some number =>
      let multiplier :=
        match dict_get multiplier_part_str MULTIPLIERS with
        | Some m => m
        | None => of_Z 1
        end in
      Some (fmul number multiplier)
    end.

End Normalization.

(* ===================================================================== *)
(** * app/db/models.py and the database session *)
(* ===================================================================== *)

(** The mapped classes are records; the surrogate keys and the timestamp
    columns, which no property below reads, are left out.  A session is
    created with [autoflush=False]: [add] only queues a row, a [select]
    reads the stored rows, and [commit] flushes the queue, where the
    database checks the [unique=True] constraint on [CompanyLink.url] and
    the 64-bit range of the [BigInteger] column. *)

Module Db.
Import PyStr.

Inductive exn : Type :=
| ValueError
| OverflowError
| KeyError
| IntegrityError
| DataError
| BrowserError (message : pystr).

Inductive outcome (A : Type) : Type :=
| Returned (a : A)
| Raised (e : exn).
Arguments Returned {A} a.
Arguments Raised {A} e.

Record Company : Type := {
  id : Z;
  name : pystr
}.

Record CompanyLink : Type := {
  link_company_id : Z;
  platform : pystr;
  link_url : pystr
}.

Record SearchResult : Type := {
  result_company_id : Z;
  query : pystr;
  result_title : pystr;
  result_url : pystr
}.

Record ScrapeLog : Type := {
  log_company_id : Z;
  log_url : pystr;
  status : pystr;
  content_length : option Z;
  error_msg : option pystr
}.

Record AUMSnapshot : Type := {
  snapshot_company_id : Z;
  aum_value : pystr;
  aum_unit : option pystr;
  standardized_value : option Z;
  source_url : option pystr
}.

Record Usage : Type := {
  usage_company_id : option Z;
  operation_type : pystr;
  tokens_used : Z
}.

Inductive row : Type :=
| LinkRow (l : CompanyLink)
| ResultRow (r : SearchResult)
| LogRow (l : ScrapeLog)
| SnapshotRow (s : AUMSnapshot)
| UsageRow (w : Usage).

Record Tables : Type := {
  company_links : list CompanyLink;
  search_results : list SearchResult;
  scrape_logs : list ScrapeLog;
  aum_snapshots : list AUMSnapshot;
  usage : list Usage
}.

Record Session : Type := {
  stored : Tables;
  pending : list row
}.

Definition empty_tables : Tables :=
  {| company_links := []; search_results := []; scrape_logs := [];
     aum_snapshots := []; usage := [] |}.

Definition empty_session : Session :=
  {| stored := empty_tables; pending := [] |}.

(** [db.add(obj)] *)
Definition add (r : row) (db : Session) : Session :=
  {| stored := stored db; pending := pending db ++ [r] |}.

(** [db.add_all(objs)] *)
Definition add_all (rs : list row) (db : Session) : Session :=
  {| stored := stored db; pending := pending db ++ rs |}.

(** [select(CompanyLink).where(CompanyLink.url == url)] has a row
    ([scalar_one_or_none()] is not [None]); under the uniqueness constraint
    there is at most one. *)
Definition link_exists (url : pystr) (t : Tables) : bool :=
  existsb (fun l => bool_decide (link_url l = url)) (company_links t).

Definition fits_bigint (z : Z) : bool :=
  ((- 2 ^ 63 <=? z) && (z <? 2 ^ 63))%Z.

(** The INSERT of one row. *)
Definition insert (r : row) (t : Tables) : exn + Tables :=
  match r with
  | LinkRow l =>
    if link_exists (link_url l) t then inl IntegrityError
    else inr {| company_links := company_links t ++ [l];
                search_results := search_results t;
                scrape_logs := scrape_logs t;
                aum_snapshots := aum_snapshots t;
                usage := usage t |}
  | ResultRow r =>
    inr {| company_links := company_links t;
           search_results := search_results t ++ [r];
           scrape_logs := scrape_logs t;
           aum_snapshots := aum_snapshots t;
           usage := usage t |}
  | LogRow l =>
    inr {| company_links := company_links t;
           search_results := search_results t;
           scrape_logs := scrape_logs t ++ [l];
           aum_snapshots := aum_snapshots t;
           usage := usage t |}
  | SnapshotRow s =>
    if match standardized_value s with
       | Some z => fits_bigint z
       | None => true
       end
    then inr {| company_links := company_links t;
                search_results := search_results t;
                scrape_logs := scrape_logs t;
                aum_snapshots := aum_snapshots t ++ [s];
                usage := usage t |}
    else inl DataError
  | UsageRow w =>
    inr {| company_links := company_links t;
           search_results := search_results t;
           scrape_logs := scrape_logs t;
           aum_snapshots := aum_snapshots t;
           usage := usage t ++ [w] |}
  end.

Fixpoint flush (rows : list row) (t : Tables) : exn + Tables :=
  match rows with
  | [] => inr t
  | r :: rows' =>
    match insert r t with
    | inl e => inl e
    | inr t' => flush rows' t'
    end
  end.

(** [await db.commit()]: either every queued row is stored, or the flush
    fails, the transaction is rolled back and the queue is dropped. *)
Definition commit (db : Session) : exn + Session :=
  match flush (pending db) (stored db) with
  | inl e => inl e
  | inr t => inr {| stored := t; pending := [] |}
  end.

(** The link rows of a queue, in order. *)
Definition links_of (rows : list row) : list CompanyLink :=
  omap (fun r => match r with LinkRow l => Some l | _ => None end) rows.

(** The invariant of the [unique=True] constraint on [CompanyLink.url]. *)
Definition urls_unique (t : Tables) : Prop :=
  NoDup (map link_url (company_links t)).

(** The state a failed commit leaves behind. *)
Definition rolled_back (db : Session) : Session :=
  {| stored := stored db; pending := [] |}.

End Db.

(* ===================================================================== *)
(** * app/utils/extraction.py *)
(* ===================================================================== *)

Module Extraction.
Import PyStr Regex.

Definition nl : pystr := [10%N].
Definition dquote : pystr := [34%N].

Definition AUM_KEYWORDS : regex :=
  Alts (Str (u "aum"))
       [Str (u "assets under management");
        Str (u "patrimônio sob gestão");
        Str (u "sob gestão");
        Str (u "ativos sob gestão");
        Str (u "recursos sob gestão")].

(** [((R\$|US\$) ?\d+[,.]\d+ ?\w+)], with the classes [\d] and [\w]
    of the character tables: on [within_tables] texts they are the
    classes of the [sre] engine. *)
Definition MONETARY_VALUE_REGEX : regex :=
  Cat (Alt (Str (u "R$")) (Str (u "US$")))
  (Cat (Opt (Chr 32%N))
  (Cat (Plus (Cls isdecimal_char))
  (Cat (Cls (fun c => char_in c (u ",.")))
  (Cat (Plus (Cls isdecimal_char))
  (Cat (Opt (Chr 32%N))
       (Plus (Cls isword_char))))))).

Definition MAX_TOKENS : nat := 1350.

Definition sanitize_paragraph (p : pystr) : pystr :=
  join nl
    (fold_left
       (fun output line =>
          let line := strip line in
          match line with
          | [] => output
          | _ => output ++ [line]
          end)
       (splitlines p) []).

(** Whether the paragraph is kept: a keyword or a monetary value occurs in
    its lower-cased text. *)
Definition is_relevant (paragraph : pystr) : bool :=
  let p_lower := lower paragraph in
  let has_keyword := search true AUM_KEYWORDS p_lower in
  let has_monetary_value := search true MONETARY_VALUE_REGEX p_lower in
  bool_decide (is_Some has_keyword) || bool_decide (is_Some has_monetary_value).

Section Capabilities.

(** [encoding.encode] and [encoding.decode] of the tokenizer. *)
Variable encode : pystr -> list N.
Variable decode : list N -> pystr.

(** The texts of the [p] and [span] elements of the parsed markup, in
    document order: [[tag.get_text() for tag in soup.find_all(["p", "span"])]]. *)
Variable find_all_text : pystr -> list pystr.

(** The token count charged for a paragraph:
    [len(encoding.encode(sanitized_paragraph))]. *)
Definition chunk_tokens (paragraph : pystr) : nat :=
  length (encode (sanitize_paragraph paragraph)).

(** The loop over the paragraphs, with its state [relevant_chunks] and
    [total_tokens]; leaving the recursion is the [break]. *)
Fixpoint select_chunks (paragraphs : list pystr) (relevant_chunks : list pystr)
    (total_tokens : nat) : list pystr :=
  match paragraphs with
  | [] => relevant_chunks
  | paragraph :: rest =>
    if is_relevant paragraph then
      let sanitized_paragraph := sanitize_paragraph paragraph in
      let chunk_tokens := length (encode sanitized_paragraph) in
      if (total_tokens + chunk_tokens <=? MAX_TOKENS)%nat
      then select_chunks rest (relevant_chunks ++ [sanitized_paragraph])
                         (total_tokens + chunk_tokens)
      else relevant_chunks
    else select_chunks rest relevant_chunks total_tokens
  end.

Definition extract_relevant_chunks (html_content : pystr) : pystr :=
  match html_content with
  | [] => []
  | _ =>
    let relevant_chunks := select_chunks (find_all_text html_content) [] 0 in
    match relevant_chunks with
    | [] => []
    | _ => join nl relevant_chunks
    end
  end.

(** [truncate_prompt_if_needed] of app/workers/agent.py *)
Definition truncate_prompt_if_needed (prompt : pystr) (max_tokens : nat) : pystr :=
  let tokens := encode prompt in
  if (max_tokens <? length tokens)%nat then decode (take max_tokens tokens)
  else prompt.

End Capabilities.

End Extraction.

(* ===================================================================== *)
(** * app/services/discovery.py *)
(* ===================================================================== *)

Module Discovery.
Import PyStr Regex Db.
Import Extraction.

(** A search hit: the dictionary [{"title", "url"}]. *)
Record result : Type := {
  title : pystr;
  url : pystr
}.

(** [(relat[óo]rio|report|balan[çc]o|demonstrativo|investor relations)] *)
Definition REPORTS_KW : regex :=
  Alts (Cat (Str (u "relat"))
            (Cat (Cls (fun c => char_in c (u "óo"))) (Str (u "rio"))))
       [Str (u "report");
        Cat (Str (u "balan"))
            (Cat (Cls (fun c => char_in c (u "çc"))) (Chr 111%N));
        Str (u "demonstrativo");
        Str (u "investor relations")].

(** [(notícia|news|jornal|magazine|g1|cnn|bloomberg)] *)
Definition NEWS_KW : regex :=
  Alts (Str (u "notícia"))
       [Str (u "news"); Str (u "jornal"); Str (u "magazine"); Str (u "g1");
        Str (u "cnn"); Str (u "bloomberg")].

Definition kw_search (r : regex) (s : pystr) : bool :=
  bool_decide (is_Some (search false r s)).

(** [categories[key].add(url)]; [None] is the [KeyError] of a missing key. *)
Definition bucket_add (key url : pystr) (categories : gmap pystr (gset pystr))
    : option (gmap pystr (gset pystr)) :=
  match categories !! key with
  | Some urls => Some (<[key := urls ∪ {[url]}]> categories)
  | None => None
  end.

(** The body of the loop of [categorize_search_results]. *)
Definition categorize_result (r : result) (categories : gmap pystr (gset pystr))
    : option (gmap pystr (gset pystr)) :=
  let url := url r in
  let title := lower (title r) in
  if contains (u "linkedin.com") url then
    bucket_add (u "linkedin") url categories
  else if contains (u "instagram.com") url then
    if negb (contains (u "stories") url) && negb (contains (u "reel") url)
    then bucket_add (u "instagram") url categories
    else Some categories
  else if contains (u "twitter.com") url || contains (u "x.com") url then
    bucket_add (u "twitter") url categories
  else if contains (u "facebook.com") url then
    bucket_add (u "facebook") url categories
  else if kw_search REPORTS_KW title then
    bucket_add (u "reports") url categories
  else if kw_search NEWS_KW title then
    bucket_add (u "news") url categories
  else
    bucket_add (u "corporate") url categories.

Fixpoint categorize_search_results (results : list result)
    (categories : gmap pystr (gset pystr)) : option (gmap pystr (gset pystr)) :=
  match results with
  | [] => Some categories
  | r :: rest =>
    match categorize_result r categories with
    | Some categories' => categorize_search_results rest categories'
    | None => None
    end
  end.

(** The bucket of a key; a missing key has no members. *)
Definition bucket (categories : gmap pystr (gset pystr)) (key : pystr)
    : gset pystr :=
  default ∅ (categories !! key).

(** The [if]/[elif] chain of [categorize_search_results] as a list: the
    tests of the code in their order, each with the bucket it selects.  The
    first four are substring tests on the whole address; the last one
    applies to every result. *)
Definition rule_chain : list ((result -> bool) * pystr) :=
  [ (fun r => contains (u "linkedin.com") (url r), u "linkedin");
    (fun r => contains (u "instagram.com") (url r), u "instagram");
    (fun r => contains (u "twitter.com") (url r)
              || contains (u "x.com") (url r), u "twitter");
    (fun r => contains (u "facebook.com") (url r), u "facebook");
    (fun r => kw_search REPORTS_KW (lower (title r)), u "reports");
    (fun r => kw_search NEWS_KW (lower (title r)), u "news");
    (fun _ => true, u "corporate") ].

(** The bucket of the first test that holds. *)
Definition first_rule (r : result) : pystr :=
  match List.find (fun rule => fst rule r) rule_chain with
  | Some (_, key) => key
  | None => u "corporate"
  end.

(** The addresses the Instagram branch leaves out. *)
Definition excluded_path (r : result) : bool :=
  contains (u "stories") (url r) || contains (u "reel") (url r).

(** The bucket a result goes to, if any: an Instagram address with an
    excluded path goes to none. *)
Definition chosen_bucket (r : result) : option pystr :=
  let key := first_rule r in
  if bool_decide (key = u "instagram") && excluded_path r then None
  else Some key.

(** ** The rule chain in the words of the specification *)

(** What follows the first two consecutive slashes. *)
Fixpoint after_slashes (s : pystr) : pystr :=
  match s with
  | 47%N :: (47%N :: rest) => rest
  | _ :: s' => after_slashes s'
  | [] => []
  end.

(** What follows the last occurrence of [c], the whole of [s] when there
    is none. *)
Fixpoint after_last (c : char) (s : pystr) : pystr :=
  match s with
  | [] => []
  | x :: s' =>
    if char_in c s' then after_last c s'
    else if N.eqb x c then s' else s
  end.

(** The host of an address, as [urlparse(url).hostname] gives it: what
    stands between the two slashes and the next "/", "?" or "#", without
    the user information before "@" and the port after ":", in lower
    case. *)
Definition host (url : pystr) : pystr :=
  let netloc := fst (PyFloat.span (fun c => negb (char_in c (u "/?#")))
                                  (after_slashes url)) in
  lower (fst (PyFloat.span (fun c => negb (N.eqb c 58))
                           (after_last 64%N netloc))).

(** The rest of the address after the host part: path, query and
    fragment. *)
Definition path (url : pystr) : pystr :=
  snd (PyFloat.span (fun c => negb (char_in c (u "/?#")))
                    (after_slashes url)).

Definition ends_with (suffix s : pystr) : bool :=
  starts_with (rev suffix) (rev s).

(** An address is on a domain when its host is the domain or a subdomain
    of it. *)
Definition on_domain (domain url : pystr) : bool :=
  bool_decide (host url = domain) || ends_with (46%N :: domain) (host url).

(** The rules of the specification in their fixed order: LinkedIn domain,
    Instagram domain excluding the paths that contain "stories" or "reel",
    Twitter/X domain, Facebook domain, reports-keyword title, news-keyword
    title, otherwise corporate.  Every result matches a rule, the last one
    if no other, which is what makes the buckets cover the input. *)
Definition spec_rules : list ((result -> bool) * pystr) :=
  [ (fun r => on_domain (u "linkedin.com") (url r), u "linkedin");
    (fun r => on_domain (u "instagram.com") (url r)
              && negb (contains (u "stories") (path (url r)))
              && negb (contains (u "reel") (path (url r))), u "instagram");
    (fun r => on_domain (u "twitter.com") (url r)
              || on_domain (u "x.com") (url r), u "twitter");
    (fun r => on_domain (u "facebook.com") (url r), u "facebook");
    (fun r => kw_search REPORTS_KW (lower (title r)), u "reports");
    (fun r => kw_search NEWS_KW (lower (title r)), u "news");
    (fun _ => true, u "corporate") ].

(** The bucket of the first rule of the specification that matches. *)
Definition spec_first_rule (r : result) : pystr :=
  match List.find (fun rule => fst rule r) spec_rules with
  | Some (_, key) => key
  | None => u "corporate"
  end.

(** Every input result has its address in some bucket. *)
Definition exhaustive (results : list result)
    (categories : gmap pystr (gset pystr)) : Prop :=
  forall r, r ∈ results -> exists key, url r ∈ bucket categories key.

(** No address is in two buckets. *)
Definition pairwise_disjoint (categories : gmap pystr (gset pystr)) : Prop :=
  forall key1 key2, key1 <> key2 ->
    bucket categories key1 ## bucket categories key2.

(** The keys of [discovered_urls], in the order of the dictionary display. *)
Definition category_keys : list pystr :=
  [u "corporate"; u "linkedin"; u "instagram"; u "twitter"; u "facebook";
   u "news"; u "reports"].

Definition empty_categories : gmap pystr (gset pystr) :=
  list_to_map (map (fun k => (k, (∅ : gset pystr))) category_keys).

Definition search_queries (company_name : pystr) : list pystr :=
  let quoted := dquote ++ company_name ++ dquote in
  [ quoted;
    quoted ++ u " site:linkedin.com/company";
    quoted ++ u " site:instagram.com";
    quoted ++ u " site:facebook.com";
    quoted ++ u " site:twitter.com OR site:x.com";
    quoted ++ u " patrimônio sob gestão";
    quoted ++ u " assets under management";
    quoted ++ u " AUM relatório" ].

Section Capabilities.

(** The search provider seen through the browser tab: for a query, either
    an exception ([None]), or the result of
    [tab.query('a[class="result__a"]', find_all=True)], which is [None] or
    the anchors as pairs of text and [href]. *)
Variable result_anchors : pystr -> option (option (list (pystr * pystr))).

(** [parse_qs(urlparse(href).query).get("uddg")], first value. *)
Variable uddg : pystr -> option pystr.

Definition duckduckgo_search (query company_name : pystr) : option (list result) :=
  let company_name := lower company_name in
  let company_name_no_space := replace_char 32%N [] company_name in
  match result_anchors query with
  | None => None
  | Some None => Some []
  | Some (Some elements) =>
    Some (fold_left
            (fun results '(title, href) =>
               match uddg href with
               | Some url =>
                 if negb (bool_decide (href = []))
                    && (contains company_name (lower title)
                        || contains company_name_no_space (lower url))
                 then results ++ [{| title := title; url := url |}]
                 else results
               | None => results
               end)
            elements [])
  end.

(** The hits of the queries of a schedule, failed searches counting for
    none. *)
Definition all_hits (schedule : list pystr) (company_name : pystr) : list result :=
  flat_map (fun q => default [] (duckduckgo_search q company_name)) schedule.

(** The synchronous part of one concurrent unit [search_and_process]: the
    state is the session and the shared dictionary [discovered_urls]. *)
Definition search_and_process (company : Company) (query : pystr)
    (st : Session * gmap pystr (gset pystr)) : Session * gmap pystr (gset pystr) :=
  let '(db, discovered_urls) := st in
  match duckduckgo_search query (name company) with
  | None => (db, discovered_urls)
  | Some search_res =>
    let db' :=
      fold_left
        (fun db res =>
           add (ResultRow {| result_company_id := id company;
                             query := query;
                             result_title := title res;
                             result_url := url res |}) db)
        search_res db in
    match categorize_search_results search_res discovered_urls with
    | Some discovered_urls' => (db', discovered_urls')
    | None => (db', discovered_urls)
    end
  end.

(** The loop over [discovered_urls.items()] that queues the unseen links. *)
Definition add_new_links (company : Company)
    (discovered_urls : gmap pystr (gset pystr)) (db : Session) : Session :=
  fold_left
    (fun db platform =>
       fold_left
         (fun db url =>
            if link_exists url (stored db) then db
            else add (LinkRow {| link_company_id := id company;
                                 platform := platform;
                                 link_url := url |}) db)
         (elements (default ∅ (discovered_urls !! platform))) db)
    category_keys db.

(** [discover_company_resources].  The units run concurrently; [schedule]
    is the order in which they reach their synchronous part, a permutation
    of [search_queries]. *)
Definition discover_company_resources (schedule : list pystr)
    (company : Company) (db : Session)
    : outcome (gmap pystr (gset pystr)) * Session :=
  let '(db1, discovered_urls) :=
    fold_left (fun st q => search_and_process company q st) schedule
              (db, empty_categories) in
  let db2 := add_new_links company discovered_urls db1 in
  match commit db2 with
  | inl e => (Raised e, rolled_back db2)
  | inr db3 => (Returned discovered_urls, db3)
  end.

End Capabilities.

End Discovery.

(* ===================================================================== *)
(** * app/services/scraping.py *)
(* ===================================================================== *)

Module Scraping.
Import PyStr Db.

(** An entry of the fetch queue: the dictionary [{"url", "category"}]. *)
Record item : Type := {
  item_url : pystr;
  item_category : pystr
}.

(** A scraped page: the dictionary [{"url", "category", "content"}]. *)
Record page : Type := {
  page_url : pystr;
  page_category : pystr;
  page_content : pystr
}.

(** A browser tab.  Each operation either completes or raises; an
    exception is represented by its message [str(e)].  The rendered markup
    may depend on how many scroll scripts have run. *)
Record Tab : Type := {
  enable_network_events : pystr + unit;
  go_to : pystr -> pystr + unit;
  execute_script : nat -> pystr + unit;
  page_source : nat -> pystr + pystr
}.

Definition and_then {A B : Type} (x : pystr + A) (f : A -> pystr + B) : pystr + B :=
  match x with
  | inl e => inl e
  | inr a => f a
  end.

Notation "x >>= f" := (and_then x f) (at level 50, left associativity).

(** The scroll loop [for _ in range(n)], after [done] scripts have run. *)
Fixpoint scroll (tab : Tab) (done n : nat) : pystr + nat :=
  match n with
  | O => inr done
  | S n' => execute_script tab done >>= fun _ => scroll tab (S done) n'
  end.

(** The [try] block of [scrape_single_url]. *)
Definition load_page (tab : Tab) (url category : pystr) : pystr + pystr :=
  enable_network_events tab >>= fun _ =>
  go_to tab url >>= fun _ =>
  (if bool_decide (category ∈ [u "instagram"; u "linkedin"; u "twitter"; u "x"])
   then scroll tab 0 3 else inr 0%nat) >>= fun scrolled =>
  page_source tab scrolled.

Definition scrape_single_url (tab : Tab) (url category : pystr) (company_id : Z)
    : option pystr * ScrapeLog :=
  match load_page tab url category with
  | inr content =>
    (Some content,
     {| log_company_id := company_id; log_url := url; status := u "SUCCESS";
        content_length := Some (Z.of_nat (length content));
        error_msg := None |})
  | inl error =>
    (None,
     {| log_company_id := company_id; log_url := url; status := u "FAILED";
        content_length := Some (Z.of_nat (length error));
        error_msg := Some error |})
  end.

Definition priority_order : list pystr :=
  [u "reports"; u "corporate"; u "news"; u "linkedin"; u "facebook";
   u "instagram"; u "twitter"].

(** The fetch queue [urls_to_scrape]. *)
Definition urls_to_scrape (discovered_urls : gmap pystr (gset pystr)) : list item :=
  flat_map
    (fun category =>
       map (fun url => {| item_url := url; item_category := category |})
           (elements (default ∅ (discovered_urls !! category))))
    priority_order.

(** The browser of the phase, [Chrome(options=...)] used as an asynchronous
    context manager.  [start] is [await browser.start()], [new_tab] is
    [await browser.new_tab()] in the unit of an entry of the queue, and
    [aexit] is the exit of the [async with] block.  Each completes or
    raises; an exception is represented by its message.  None of the three
    is inside a [try]. *)
Record Browser : Type := {
  start : pystr + unit;
  new_tab : item -> pystr + Tab;
  aexit : pystr + unit
}.

Definition completes {A B : Type} (x : A + B) : bool :=
  match x with
  | inr _ => true
  | inl _ => false
  end.

(** One concurrent unit [scrape_content]: the state is the pair of the
    lists [scraped_content] and [logs_to_add].  The exception of
    [browser.new_tab()] is not caught: the unit raises it and appends
    nothing. *)
Definition scrape_content (browser : Browser) (company : Company) (it : item)
    (st : list page * list ScrapeLog) : pystr + (list page * list ScrapeLog) :=
  let '(scraped_content, logs_to_add) := st in
  match item_url it with
  | [] => inr st
  | _ =>
    new_tab browser it >>= fun tab =>
    let '(content, log_entry) :=
      scrape_single_url tab (item_url it) (item_category it) (id company) in
    let logs_to_add := logs_to_add ++ [log_entry] in
    match content with
    | Some (c :: cs) =>
      inr (scraped_content ++ [{| page_url := item_url it;
                                  page_category := item_category it;
                                  page_content := c :: cs |}],
           logs_to_add)
    | _ => inr (scraped_content, logs_to_add)
    end
  end.

(** The [await] of [asyncio.gather] on the tasks.  The units run concurrently and each
    appends to the two lists when its fetch is over; [schedule] is the
    order in which they finish, a permutation of [urls_to_scrape].  The
    first exception that a unit raises is raised by [gather]. *)
Fixpoint gather (browser : Browser) (company : Company) (schedule : list item)
    (st : list page * list ScrapeLog) : pystr + (list page * list ScrapeLog) :=
  match schedule with
  | [] => inr st
  | it :: rest =>
    scrape_content browser company it st >>= fun st' =>
    gather browser company rest st'
  end.

(** The entries for which a fetch is attempted: those with a non-empty
    address. *)
Definition attempted (queue : list item) : list item :=
  List.filter (fun it => negb (bool_decide (item_url it = []))) queue.

(** The browser starts, opens a tab for every attempted entry, and
    closes. *)
Definition browser_works (browser : Browser) (queue : list item) : bool :=
  completes (start browser)
  && forallb (fun it => completes (new_tab browser it)) (attempted queue)
  && completes (aexit browser).

(** The log entry of the fetch of an entry in a tab. *)
Definition log_of (company : Company) (it : item) (tab : Tab) : ScrapeLog :=
  snd (scrape_single_url tab (item_url it) (item_category it) (id company)).

(** The returned list has a page for every attempted fetch that captured a
    markup. *)
Definition returns_successful_fetches (browser : Browser) (queue : list item)
    (pages : list page) : Prop :=
  forall it tab content,
    it ∈ attempted queue ->
    new_tab browser it = inr tab ->
    load_page tab (item_url it) (item_category it) = inr content ->
    {| page_url := item_url it; page_category := item_category it;
       page_content := content |} ∈ pages.

(** [scrape_discovered_urls].  The body of the [async with] block starts
    the browser and gathers the units; the exit of the block runs whether
    the body raised or not, and an exception of its own replaces the one of
    the body.  An exception of the block leaves the function before
    [db.add_all(logs_to_add)]: the session is as it was. *)
Definition scrape_discovered_urls (browser : Browser) (schedule : list item)
    (company : Company) (db : Session) : outcome (list page) * Session :=
  let body :=
    start browser >>= fun _ => gather browser company schedule ([], []) in
  match aexit browser, body with
  | inl e, _ => (Raised (BrowserError e), db)
  | inr _, inl e => (Raised (BrowserError e), db)
  | inr _, inr (scraped_content, logs_to_add) =>
    let db1 := add_all (map LogRow logs_to_add) db in
    match commit db1 with
    | inl e => (Raised e, rolled_back db1)
    | inr db2 => (Returned scraped_content, db2)
    end
  end.

End Scraping.

(* ===================================================================== *)
(** * app/services/budget_manager.py and app/workers/agent.py *)
(* ===================================================================== *)

Module Agent.
Import PyStr Regex PyFloat Db.
Import Extraction Scraping.

Definition NAO_DISPONIVEL : pystr := u "NAO_DISPONIVEL".

(** [EXTRACTION_PROMPT.format(company_name=..., relevant_content=...)] *)
Definition EXTRACTION_PROMPT (company_name relevant_content : pystr) : pystr :=
  nl ++ u "Qual é o patrimônio sob gestão (AUM) anunciado por "
     ++ company_name ++ u "?" ++ nl
  ++ nl
  ++ u "Analise o conteúdo fornecido e responda APENAS com:" ++ nl
  ++ u "- O valor numérico e unidade (ex.: R$ 2,3 bi)" ++ nl
  ++ u "- OU " ++ dquote ++ NAO_DISPONIVEL ++ dquote
     ++ u " se não encontrar" ++ nl
  ++ nl
  ++ u "Também indique a fonte exata onde encontrou a informação." ++ nl
  ++ nl
  ++ u "Conteúdo para análise:" ++ nl
  ++ relevant_content ++ nl.

(** The pattern of the unit search, [r"(|R\$|US\$|€|\$)"]; its only group
    is the whole pattern. *)
Definition UNIT_RE : regex :=
  Alts Eps [Str (u "R$"); Str (u "US$"); Str (u "€"); Str (u "$")].

(** [unit_search.group(1) if unit_search else "USD"] *)
Definition extract_unit (raw_value : pystr) : pystr :=
  match search true UNIT_RE raw_value with
  | Some (_, group1) => group1
  | None => u "USD"
  end.

(** The nullability rule of a stored snapshot: the standardized value is
    null exactly when the raw value does not normalize or is the sentinel,
    and a sentinel snapshot has no unit, no value and no source. *)
Definition snapshot_nullability (s : AUMSnapshot) : Prop :=
  (standardized_value s = None <->
   Normalization.normalize_aum_value (aum_value s) = None
   \/ aum_value s = NAO_DISPONIVEL)
  /\ (aum_value s = NAO_DISPONIVEL ->
      aum_unit s = None /\ standardized_value s = None /\ source_url s = None).

(** [BudgetManager.log_usage] *)
Definition log_usage (company_id : Z) (operation : pystr) (tokens : Z)
    (db : Session) : exn + Session :=
  commit (add (UsageRow {| usage_company_id := Some company_id;
                           operation_type := operation;
                           tokens_used := tokens |}) db).

Section Capabilities.

Variable encode : pystr -> list N.
Variable decode : list N -> pystr.
Variable find_all_text : pystr -> list pystr.

(** [self.arun(prompt)] together with the reading of the response: the
    content string and [metrics["total_tokens"][0]], or [None] when any of
    the three raises. *)
Variable arun : pystr -> option (pystr * Z).

(** The loop that assembles the content block. *)
Definition relevant_block (scraped_pages : list page) : pystr :=
  fold_left
    (fun content p =>
       let source := page_url p in
       let html_content := page_content p in
       let relevant_content :=
         extract_relevant_chunks encode find_all_text html_content in
       match relevant_content with
       | [] => content
       | _ => content ++ u "SOURCE: " ++ source ++ nl ++ relevant_content ++ nl
       end)
    scraped_pages [].

Definition build_prompt (company : Company) (scraped_pages : list page) : pystr :=
  truncate_prompt_if_needed encode decode
    (EXTRACTION_PROMPT (name company) (relevant_block scraped_pages))
    MAX_TOKENS.

(** What follows the [try] block: the parsing of [result_text] and the
    persistence of the snapshot. *)
Definition persist_result (company : Company) (result_text : pystr)
    (db : Session) : outcome unit * Session :=
  let company_id := id company in
  if contains NAO_DISPONIVEL (upper result_text) then
    let snapshot := {| snapshot_company_id := company_id;
                       aum_value := NAO_DISPONIVEL;
                       aum_unit := None;
                       standardized_value := None;
                       source_url := None |} in
    match commit (add (SnapshotRow snapshot) db) with
    | inl e => (Raised e, rolled_back db)
    | inr db' => (Returned tt, db')
    end
  else
    match splitlines result_text with
    | [raw_value; _; source_url] =>
      let standardized_value := Normalization.normalize_aum_value raw_value in
      match standardized_value with
      | Some value =>
        if truthy value then
          let unit := extract_unit raw_value in
          match to_int value with
          | inl PyFloat.OverflowError => (Raised OverflowError, db)
          | inl PyFloat.ValueError => (Raised ValueError, db)
          | inr int_value =>
            let snapshot :=
              {| snapshot_company_id := company_id;
                 aum_value := raw_value;
                 aum_unit := Some unit;
                 standardized_value := Some int_value;
                 source_url := Some (lstrip_chars (u "Fonte: ") source_url) |} in
            match commit (add (SnapshotRow snapshot) db) with
            | inl e => (Raised e, rolled_back db)
            | inr db' => (Returned tt, db')
            end
          end
        else (Returned tt, db)
      | None => (Returned tt, db)
      end
    | _ => (Raised ValueError, db)
    end.

(** [AIExtractionAgent.extract_aum]: the result and the session it leaves. *)
Definition extract_aum (company : Company) (scraped_pages : list page)
    (db : Session) : outcome unit * Session :=
  let company_id := id company in
  let prompt := build_prompt company scraped_pages in
  match arun prompt with
  | None => (Returned tt, db)
  | Some (content, total_tokens_used) =>
    let result_text := strip content in
    match log_usage company_id (u "aum_extraction") total_tokens_used db with
    | inl _ => (Returned tt, rolled_back db)
    | inr db1 => persist_result company result_text db1
    end
  end.

End Capabilities.

End Agent.

(* ===================================================================== *)
(** * The concurrency limiters *)
(* ===================================================================== *)

(** [discover_company_resources] and [scrape_discovered_urls] each create
    their own [asyncio.Semaphore(4)] and wrap the whole body of every
    concurrent unit in [async with semaphore].  A unit waits at the
    [async with] until a permit is free, takes it, runs its body and gives
    the permit back on leaving the block.  [asyncio.gather] returns when
    every unit has finished, and [process_company] awaits the discovery
    before it starts the scraping. *)

Module Limiter.

Inductive unit_state : Type :=
| Waiting      (* created, or blocked at [async with semaphore] *)
| InFlight     (* inside the [async with] block *)
| Finished.

Global Instance unit_state_eq_dec : EqDecision unit_state.
Proof. solve_decision. Defined.

(** A semaphore with the units that share it. *)
Record pool : Type := {
  permits : nat;
  units : list unit_state
}.

(** [semaphore = asyncio.Semaphore(4)] and one unit per entry. *)
Definition new_pool (n : nat) : pool :=
  {| permits := 4; units := replicate n Waiting |}.

Definition in_flight (p : pool) : nat :=
  length (filter (fun s => s = InFlight) (units p)).

(** The permits of a semaphore and the units it has let in add up to 4. *)
Definition balanced (p : pool) : Prop := permits p + in_flight p = 4.

Definition all_finished (p : pool) : Prop :=
  Forall (fun s => s = Finished) (units p).

Inductive pool_step : pool -> pool -> Prop :=
| acquire (p : pool) (i : nat) :
    units p !! i = Some Waiting ->
    0 < permits p ->
    pool_step p {| permits := permits p - 1;
                   units := <[i := InFlight]> (units p) |}
| release (p : pool) (i : nat) :
    units p !! i = Some InFlight ->
    pool_step p {| permits := permits p + 1;
                   units := <[i := Finished]> (units p) |}.

(** The phases of one run of [process_company]. *)
Inductive run : Type :=
| Discovering (searches : pool)
| Scraping (fetches : pool)
| Extracting.

(** The number of search queries of a discovery. *)
Definition search_units : nat := 8.

Definition start : run := Discovering (new_pool search_units).

Inductive run_step : run -> run -> Prop :=
| search_step (p p' : pool) :
    pool_step p p' -> run_step (Discovering p) (Discovering p')
| discovery_done (p : pool) (urls : nat) :
    all_finished p -> run_step (Discovering p) (Scraping (new_pool urls))
| fetch_step (p p' : pool) :
    pool_step p p' -> run_step (Scraping p) (Scraping p')
| scraping_done (p : pool) :
    all_finished p -> run_step (Scraping p) Extracting.

Inductive reachable : run -> Prop :=
| reach_start : reachable start
| reach_step (r r' : run) : reachable r -> run_step r r' -> reachable r'.

Definition searches_in_flight (r : run) : nat :=
  match r with
  | Discovering p => in_flight p
  | _ => 0
  end.

Definition fetches_in_flight (r : run) : nat :=
  match r with
  | Scraping p => in_flight p
  | _ => 0
  end.

End Limiter.

(* ===================================================================== *)
(** * Predicates used in the further properties *)
(* ===================================================================== *)

Module Shapes.
Import PyStr PyFloat.

(** A float that is neither negative nor NaN: a zero, a finite number or
    the infinity, each with the positive sign. *)
Definition is_nonneg (x : float) : bool :=
  match x with
  | S754_zero false | S754_infinity false | S754_finite false _ _ => true
  | _ => false
  end.

(** A finite float with the positive sign. *)
Definition is_positive_finite (x : float) : bool :=
  match x with
  | S754_finite false _ _ => true
  | _ => false
  end.

Definition is_empty (s : pystr) : bool :=
  match s with
  | [] => true
  | _ => false
  end.

(** A text without a line boundary of [str.splitlines]. *)
Definition no_linebreak (s : pystr) : Prop :=
  forall c, c ∈ s -> islinebreak_char c = false.

(** Whether [s] starts with [p], up to a comparison of characters. *)
Fixpoint prefix_by (same : char -> char -> bool) (p s : pystr) : bool :=
  match p, s with
  | [], _ => true
  | a :: p', b :: s' => same a b && prefix_by same p' s'
  | _ :: _, [] => false
  end.

(** A text that [str.lower] leaves unchanged. *)
Definition is_lower (s : pystr) : Prop :=
  forall c, c ∈ s -> lower_char c = c.

(** The phrases whose presence the keyword pattern comes down to. *)
Definition AUM_PHRASES : list pystr :=
  [u "aum"; u "assets under management"; u "sob gestão"].

(** The words the two title patterns of the categorizer look for. *)
Definition REPORT_WORDS : list pystr :=
  [u "relatório"; u "relatorio"; u "report"; u "balanço"; u "balanco";
   u "demonstrativo"; u "investor relations"].

Definition NEWS_WORDS : list pystr :=
  [u "notícia"; u "news"; u "jornal"; u "magazine"; u "g1"; u "cnn";
   u "bloomberg"].

(** Whether a text contains one of the words. *)
Definition contains_any (words : list pystr) (t : pystr) : bool :=
  existsb (fun kw => contains kw t) words.

End Shapes.

(* ===================================================================== *)
(** * Stand-ins for the external capabilities, used in the examples *)
(* ===================================================================== *)

Module Fixtures.
Import PyStr Db Extraction Discovery Scraping Agent Limiter.

(** A markup parser that finds one element per line of its input. *)
Definition line_elements (html : pystr) : list pystr := splitlines html.

(** A tokenizer that makes one token of every character. *)
Definition char_tokens (s : pystr) : list N := s.

(** A tokenizer that reports 700 tokens for a text that holds a digit 1 or
    a digit 2, and 10 tokens for any other text. *)
Definition heavy_tokens (s : pystr) : list N :=
  if contains (u "1") s || contains (u "2") s
  then replicate 700 0%N else replicate 10 0%N.

Definition three_paragraphs : pystr :=
  u "AUM: 1 bilhão" ++ nl ++ u "AUM: 2 bilhões" ++ nl ++ u "AUM: 3 bilhões".

Definition flow_test_corp : Company :=
  {| id := 1; name := u "Flow Test Corp" |}.

(** The results of [test_categorize_search_results]. *)
Definition test_results : list result :=
  [ {| title := u "Test Corp"; url := u "https://linkedin.com/company/test" |};
    {| title := u "Relatório Anual"; url := u "https://example.com/report" |};
    {| title := u "Grande notícia sobre Test Corp";
       url := u "https://news.com/article" |};
    {| title := u "Site Oficial"; url := u "https://testcorp.com" |} ].

(** An Instagram story. *)
Definition story_results : list result :=
  [ {| title := u "Test Corp"; url := u "https://instagram.com/stories/testcorp" |} ].

(** A page of linux.com found under a report title. *)
Definition linux_report : result :=
  {| title := u "Linux Foundation Annual Report";
     url := u "https://www.linux.com/about" |}.

(** One address found twice, under a report title and under a plain one. *)
Definition twice_results : list result :=
  [ {| title := u "Test Corp annual report"; url := u "https://testcorp.com/2024" |};
    {| title := u "Test Corp"; url := u "https://testcorp.com/2024" |} ].

(** A search provider that answers every query with the two anchors of
    [test_discover_company_resources_success], behind the redirect of the
    results page. *)
Definition redirect : pystr := u "//duckduckgo.com/l/?uddg=".

Definition two_anchors (query : pystr) : option (option (list (pystr * pystr))) :=
  Some (Some
    [ (u "Discovery Test Corp LinkedIn",
       redirect ++ u "https://linkedin.com/company/discovery-test");
      (u "Discovery Test Corp Site",
       redirect ++ u "https://discoverytest.com") ]).

(** A search provider that shows one address under a report title for the
    plain query and under a plain title for every other query. *)
Definition two_titles (query : pystr) : option (option (list (pystr * pystr))) :=
  if bool_decide (query = dquote ++ u "Discovery Test Corp" ++ dquote)
  then Some (Some [ (u "Discovery Test Corp annual report",
                     redirect ++ u "https://discoverytest.com/2024") ])
  else Some (Some [ (u "Discovery Test Corp",
                     redirect ++ u "https://discoverytest.com/2024") ]).

Definition redirect_target (href : pystr) : option pystr :=
  if starts_with redirect href then Some (drop (length redirect) href)
  else None.

Definition discovery_test_corp : Company :=
  {| id := 1; name := u "Discovery Test Corp" |}.

(** A first discovery on an empty database, its dictionary, and a second
    discovery on the database the first one leaves. *)
Definition first_discovery : outcome (gmap pystr (gset pystr)) * Session :=
  discover_company_resources two_anchors redirect_target
    (search_queries (name discovery_test_corp)) discovery_test_corp
    empty_session.

Definition first_discovered : gmap pystr (gset pystr) :=
  match fst first_discovery with
  | Returned discovered_urls => discovered_urls
  | Raised _ => ∅
  end.

Definition second_discovery : outcome (gmap pystr (gset pystr)) * Session :=
  discover_company_resources two_anchors redirect_target
    (rev (search_queries (name discovery_test_corp))) discovery_test_corp
    (snd first_discovery).

(** A tab whose operations complete and whose rendered markup is [markup]. *)
Definition tab_showing (markup : pystr) : Tab :=
  {| enable_network_events := inr tt;
     go_to := fun _ => inr tt;
     execute_script := fun _ => inr tt;
     page_source := fun _ => inr markup |}.

(** A tab whose navigation times out. *)
Definition tab_timing_out : Tab :=
  {| enable_network_events := inr tt;
     go_to := fun _ => inl (u "Page timeout");
     execute_script := fun _ => inr tt;
     page_source := fun _ => inr (u "<html></html>") |}.

(** A browser with a corporate site, a report that times out and a LinkedIn
    page. *)
Definition test_browser : Browser :=
  {| Scraping.start := inr tt;
     new_tab := fun it =>
       inr (if bool_decide (item_url it = u "https://testcorp.com/reports")
            then tab_timing_out
            else tab_showing (u "<html>" ++ item_url it ++ u "</html>"));
     aexit := inr tt |}.

(** A browser whose pages render to the empty markup. *)
Definition blank_browser : Browser :=
  {| Scraping.start := inr tt;
     new_tab := fun _ => inr (tab_showing []);
     aexit := inr tt |}.

(** The browser of the examples, except that it cannot open a tab for the
    LinkedIn page. *)
Definition crashing_browser : Browser :=
  {| Scraping.start := inr tt;
     new_tab := fun it =>
       if bool_decide (item_category it = u "linkedin")
       then inl (u "Target closed")
       else new_tab test_browser it;
     aexit := inr tt |}.

Definition scraping_test_corp : Company :=
  {| id := 1; name := u "Scraping Test Corp" |}.

(** The dictionary of [test_scrape_discovered_urls_success]. *)
Definition test_discovered_urls : gmap pystr (gset pystr) :=
  <[u "corporate" := {[ u "https://testcorp.com" ]}]>
  (<[u "reports" := {[ u "https://testcorp.com/reports" ]}]>
  (<[u "linkedin" := {[ u "https://linkedin.com/company/testcorp" ]}]>
   empty_categories)).

Definition one_corporate_url : gmap pystr (gset pystr) :=
  <[u "corporate" := {[ u "https://testcorp.com" ]}]> empty_categories.

(** The run in which four of the eight searches hold a permit. *)
Definition four_searching : run :=
  Discovering {| permits := 0;
                 units := replicate 4 InFlight ++ replicate 4 Waiting |}.

(** The detokenizer that goes with [char_tokens]. *)
Definition char_text (tokens : list N) : pystr := tokens.

(** The page and the completion of [test_process_company_flow]. *)
Definition flow_pages : list page :=
  [ {| page_url := u "https://fake.url/report";
       page_category := u "corporate";
       page_content := u "<html>AUM é R$ 500 milhões</html>" |} ].

Definition flow_response : pystr :=
  u "R$ 500 milhões" ++ nl ++ nl ++ u "Fonte: https://fake.url/report".

(** A completion provider that answers [response] and reports 125 tokens. *)
Definition answering (response : pystr) (prompt : pystr) : option (pystr * Z) :=
  Some (response, 125%Z).

(** A completion whose value line is a zero amount. *)
Definition zero_response : pystr :=
  u "R$ 0" ++ nl ++ nl ++ u "Fonte: https://fake.url/report".

(** A completion whose source is given without a scheme and starts with a
    letter of the label. *)
Definition bare_host_response : pystr :=
  u "R$ 1 bi" ++ nl ++ nl ++ u "Fonte: economia.uol.com.br/fundos".

(** A completion whose value line is a 1 followed by 309 zeros, more than
    the largest finite float. *)
Definition huge_response : pystr :=
  u "1" ++ replicate 309 48%N ++ nl ++ nl ++ u "Fonte: https://fake.url/report".

(** A completion with the not-available sentinel. *)
Definition unavailable_response : pystr := u "NAO_DISPONIVEL".

(** The agent of the examples: the stand-in capabilities, the company and
    the page of the end-to-end test, an empty database, and a completion
    provider that answers [response]. *)
Definition run_agent (response : pystr) : outcome unit * Session :=
  extract_aum char_tokens char_text line_elements (answering response)
    flow_test_corp flow_pages empty_session.

End Fixtures.

(* ===================================================================== *)
(** * Further stand-ins, used in the examples of the further properties *)
(* ===================================================================== *)

Module MoreFixtures.
Import PyStr Db Extraction Discovery Scraping Agent Limiter Fixtures.

(** A completion with a value line and a source line only. *)
Definition two_line_response : pystr :=
  u "R$ 1 bi" ++ nl ++ u "Fonte: https://fake.url/report".

(** A well-formed completion whose middle line mentions the sentinel. *)
Definition hedged_response : pystr :=
  u "R$ 1 bi" ++ nl ++ u "ou nao_disponivel" ++ nl
  ++ u "Fonte: https://fake.url/report".

End MoreFixtures.

(* ===================================================================== *)
(** * Properties *)
(* ===================================================================== *)

Import PyStr Regex PyFloat Db Extraction Discovery Scraping Agent.

(** ** The value normalizer *)

Section NormalizerFacts.
Import Normalization.

Local Open Scope N_scope.

Lemma isspace_char_cases (c : char) :
  isspace_char c = true ->
  c ∈ [9; 10; 11; 12; 13; 28; 29; 30; 31; 32; 133; 160].
Proof.
  unfold isspace_char, in_range.
  rewrite !orb_true_iff, !andb_true_iff, !N.leb_le, !N.eqb_eq.
  intros H. rewrite !elem_of_cons. lia.
Qed.

Lemma COIN_SYMBOL_RE_alternatives :
  COIN_SYMBOL_RE =
  Alt Eps
    (Alt (Cat (Chr 82) (Chr 36))
    (Alt (Cat (Chr 85) (Cat (Chr 83) (Chr 36)))
    (Alt (Chr 8364)
    (Alt (Chr 36)
         (Cls isspace_char))))).
Proof. reflexivity. Qed.

Lemma match_len_empty_first (s : pystr) :
  match_len true COIN_SYMBOL_RE false s = Some 0%nat.
Proof.
  unfold match_len. rewrite COIN_SYMBOL_RE_alternatives.
  cbn [matchk]. rewrite Nat.sub_diag. reflexivity.
Qed.

Lemma match_len_symbol (c : char) (s : pystr) :
  is_symbol_char c ->
  exists k, match_len true COIN_SYMBOL_RE true (c :: s) = Some (S k).
Proof.
  intros Hc.
  assert (Hlen : (length (c :: s) - length s = 1)%nat) by (cbn; lia).
  assert (Hcs : c ∈ [36; 8364; 9; 10; 11; 12; 13; 28; 29; 30; 31; 32; 133; 160]).
  { destruct Hc as [-> | [-> | Hc]];
      [ rewrite !elem_of_cons; tauto | rewrite !elem_of_cons; tauto |].
    apply isspace_char_cases in Hc. revert Hc. rewrite !elem_of_cons. tauto. }
  exists 0%nat. unfold match_len.
  repeat (apply elem_of_cons in Hcs as [-> | Hcs]);
    [ .. | by apply elem_of_nil in Hcs ];
    rewrite COIN_SYMBOL_RE_alternatives;
    repeat (cbn -[length Nat.sub]; rewrite ?Nat.sub_diag, ?Hlen);
    reflexivity.
Qed.

Lemma sub_go_no_symbol (s : pystr) :
  forall (skip : nat) (c : char),
    c ∈ sub_go true COIN_SYMBOL_RE [] skip s -> ~ is_symbol_char c.
Proof.
  induction s as [| c0 s IH]; intros skip c.
  - destruct skip; cbn [sub_go].
    + rewrite match_len_empty_first. cbn.
      destruct (match_len true COIN_SYMBOL_RE true []) as [[|]|];
        intros H; by apply elem_of_nil in H.
    + intros H; by apply elem_of_nil in H.
  - destruct skip as [| k]; cbn [sub_go]; [| apply IH].
    rewrite match_len_empty_first. cbn [app].
    destruct (match_len true COIN_SYMBOL_RE true (c0 :: s)) as [[| k] |] eqn:E.
    + intros [-> | H]%elem_of_cons; [| by eapply IH].
      intros [k' Hk']%(match_len_symbol _ s). congruence.
    + apply IH.
    + intros [-> | H]%elem_of_cons; [| by eapply IH].
      intros [k' Hk']%(match_len_symbol _ s). congruence.
Qed.

Lemma elem_of_lstrip (s : pystr) (c : char) : c ∈ lstrip s -> c ∈ s.
Proof.
  induction s as [| a s IH]; cbn; [done |].
  destruct (isspace_char a); [| done].
  intros H. apply elem_of_cons. right. by apply IH.
Qed.

Lemma elem_of_strip (s : pystr) (c : char) : c ∈ strip s -> c ∈ s.
Proof.
  unfold strip, rstrip. rewrite list_elem_of_In, <- in_rev, <- list_elem_of_In.
  intros H%elem_of_lstrip. apply elem_of_lstrip.
  by rewrite list_elem_of_In, in_rev, <- list_elem_of_In.
Qed.

Lemma strip_symbols_no_symbol (text : pystr) (c : char) :
  c ∈ strip_symbols text -> ~ is_symbol_char c.
Proof.
  unfold strip_symbols, sub. intros H%elem_of_strip.
  by eapply sub_go_no_symbol.
Qed.

(** The expected floats of the fixtures, as mantissa and exponent:
    [2.3e9] is [0x1.122e6ep+31], [123456.78] is [0x1.e240c7ae147aep+16]. *)
Example fixture_floats :
  of_Z 2300000000 = S754_finite false 0x1122e6e0000000 (-21)
  /\ of_Z 500000000 = S754_finite false 0x1dcd6500000000 (-24)
  /\ of_Z 1500000000000 = S754_finite false 0x15d3ef79800000 (-12)
  /\ of_Z 100500 = S754_finite false 0x18894000000000 (-36)
  /\ of_decimal 12345678 2 = S754_finite false 0x1e240c7ae147ae (-36)
  /\ of_Z 25000000000 = S754_finite false 0x174876e8000000 (-18).
Proof. repeat split; vm_compute; reflexivity. Qed.

(** C1.  [normalize_aum_value] returns the listed result on each fixture of
    the test suite; the cleaning step it starts with gives the fixture
    without its currency symbol and blanks, and its output never holds a
    dollar sign, a euro sign or a whitespace character, so that only digits,
    separators and the multiplier token reach the separation loop. *)
Theorem normalize_aum_value_fixtures :
  normalize_aum_value (u "R$ 2,3 bi") = Some (of_Z 2300000000)
  /\ normalize_aum_value (u "$500 million") = Some (of_Z 500000000)
  /\ normalize_aum_value (u "1.5 trilhão") = Some (of_Z 1500000000000)
  /\ normalize_aum_value (u "US$ 100,5 mil") = Some (of_Z 100500)
  /\ normalize_aum_value (u "€ 123.456,78") = Some (of_decimal 12345678 2)
  /\ normalize_aum_value (u "25b") = Some (of_Z 25000000000)
  /\ normalize_aum_value (u "Invalid Text") = None
  /\ strip_symbols (lower (u "R$ 2,3 bi")) = u "2,3bi"
  /\ strip_symbols (lower (u "$500 million")) = u "500million"
  /\ strip_symbols (lower (u "1.5 trilhão")) = u "1.5trilhão"
  /\ strip_symbols (lower (u "US$ 100,5 mil")) = u "100,5mil"
  /\ strip_symbols (lower (u "€ 123.456,78")) = u "123.456,78"
  /\ strip_symbols (lower (u "25b")) = u "25b"
  /\ (forall (text : pystr) (c : char),
        c ∈ strip_symbols text ->
        c <> 36 /\ c <> 8364 /\ isspace_char c = false).
Proof.
  repeat (split; [vm_compute; reflexivity |]).
  intros text c H. pose proof (strip_symbols_no_symbol _ _ H) as Hn.
  unfold is_symbol_char in Hn.
  destruct (isspace_char c); repeat split; try congruence; tauto.
Qed.

End NormalizerFacts.

(** ** The content selector *)

Section SelectorFacts.

Variable encode : pystr -> list N.
Variable find_all_text : pystr -> list pystr.

Lemma select_chunks_spec (paragraphs : list pystr) :
  forall (chunks : list pystr) (total : nat),
  exists considered ignored : list pystr,
    paragraphs = considered ++ ignored
    /\ select_chunks encode paragraphs chunks total
       = chunks ++ map sanitize_paragraph (List.filter is_relevant considered)
    /\ (forall before p after,
          List.filter is_relevant considered = before ++ p :: after ->
          total + sum_list_with (chunk_tokens encode) before + chunk_tokens encode p <= MAX_TOKENS)
    /\ (ignored = []
        \/ exists p rest,
             ignored = p :: rest /\ is_relevant p = true
             /\ MAX_TOKENS
                < total
                  + sum_list_with (chunk_tokens encode) (List.filter is_relevant considered)
                  + chunk_tokens encode p).
Proof.
  induction paragraphs as [| p ps IH]; intros chunks total.
  - exists [], []. cbn. rewrite app_nil_r. repeat split; [| by left].
    intros [| ? ?] ? ? H; discriminate H.
  - cbn [select_chunks]. destruct (is_relevant p) eqn:Hrel.
    + change (length (encode (sanitize_paragraph p))) with (chunk_tokens encode p).
      destruct (total + chunk_tokens encode p <=? MAX_TOKENS)%nat eqn:Hfit.
      * apply Nat.leb_le in Hfit.
        destruct (IH (chunks ++ [sanitize_paragraph p]) (total + chunk_tokens encode p))
          as (considered & ignored & -> & Hsel & Hpre & Hstop).
        exists (p :: considered), ignored. cbn [List.filter]. rewrite Hrel.
        split; [done |]. split.
        { rewrite Hsel. cbn [map]. by rewrite <- app_assoc. }
        split.
        { intros [| q before] x after Heq; injection Heq as -> Heq.
          - cbn. lia.
          - specialize (Hpre _ _ _ Heq). cbn [sum_list_with]. lia. }
        destruct Hstop as [-> | (q & rest & -> & Hq & Hover)]; [by left |].
        right. exists q, rest. repeat split; [done |].
        cbn [sum_list_with]. lia.
      * apply Nat.leb_gt in Hfit.
        exists [], (p :: ps). cbn. rewrite app_nil_r. repeat split.
        { intros [| ? ?] ? ? H; discriminate H. }
        right. exists p, ps. repeat split; [done | lia].
    + destruct (IH chunks total)
        as (considered & ignored & -> & Hsel & Hpre & Hstop).
      exists (p :: considered), ignored. cbn [List.filter]. rewrite Hrel.
      repeat split; assumption.
Qed.

(** C2.  The selector reads the paragraphs of the markup up to a stopping
    point.  What it returns are the relevant paragraphs before that point,
    each appended while the running total plus its own token count was at
    most 1350; the stopping point is either the end of the markup or the
    first relevant paragraph that exceeds the budget, and nothing after it
    is selected, whatever its size.  The result is the selected fragments
    joined by line feeds, and the empty string when nothing is selected or
    the markup is empty. *)
Theorem extract_relevant_chunks_budget (html_content : pystr) :
  exists considered ignored : list pystr,
    let kept := List.filter is_relevant considered in
    find_all_text html_content = considered ++ ignored
    /\ select_chunks encode (find_all_text html_content) [] 0
       = map sanitize_paragraph kept
    /\ (forall before p after,
          kept = before ++ p :: after ->
          sum_list_with (chunk_tokens encode) before + chunk_tokens encode p <= 1350)
    /\ (ignored = []
        \/ exists p rest,
             ignored = p :: rest /\ is_relevant p = true
             /\ 1350 < sum_list_with (chunk_tokens encode) kept + chunk_tokens encode p)
    /\ extract_relevant_chunks encode find_all_text html_content
       = match html_content, kept with
         | [], _ => []
         | _, [] => []
         | _, _ => join nl (map sanitize_paragraph kept)
         end.
Proof.
  destruct (select_chunks_spec (find_all_text html_content) [] 0)
    as (considered & ignored & Hsplit & Hsel & Hpre & Hstop).
  exists considered, ignored. cbn zeta. cbn [app] in Hsel.
  split; [done |]. split; [done |]. split; [exact Hpre |]. split; [exact Hstop |].
  unfold extract_relevant_chunks. rewrite Hsel.
  destruct html_content; [done |].
  by destruct (List.filter is_relevant considered).
Qed.

End SelectorFacts.

(** The selection stops for good: with 700 tokens for each of the first two
    paragraphs and 10 for the third, only the first is returned, although
    the third would fit the budget that is left. *)
Example extract_relevant_chunks_stops :
  extract_relevant_chunks Fixtures.heavy_tokens Fixtures.line_elements
    Fixtures.three_paragraphs = u "AUM: 1 bilhão".
Proof. vm_compute. reflexivity. Qed.

(** ** The extraction agent *)

Section AgentFacts.
Import Normalization Fixtures.

Lemma UNIT_RE_alternatives :
  UNIT_RE =
  Alt Eps
    (Alt (Cat (Chr 82) (Chr 36))
    (Alt (Cat (Chr 85) (Cat (Chr 83) (Chr 36)))
    (Alt (Chr 8364)
         (Chr 36)))).
Proof. reflexivity. Qed.

Lemma unit_search_empty (raw_value : pystr) :
  search true UNIT_RE raw_value = Some (0, []).
Proof.
  unfold search. destruct raw_value as [| c s]; unfold search_from, match_len;
    rewrite UNIT_RE_alternatives; cbn [matchk]; rewrite Nat.sub_diag;
    reflexivity.
Qed.

(** C9.  The unit search never yields a currency symbol nor the default:
    the empty first alternative of its pattern matches at offset 0 of every
    raw value, so the unit is the empty string.  On the completion of the
    end-to-end test the stored unit is the empty string, where the raw value
    starts with the symbol of the Brazilian real. *)
Theorem extract_unit_always_empty :
  (forall raw_value : pystr, extract_unit raw_value = [])
  /\ extract_unit (u "R$ 500 milhões") = []
  /\ extract_unit (u "500 million") = []
  /\ map aum_unit (aum_snapshots (stored (snd (run_agent flow_response))))
     = [Some []].
Proof.
  assert (H : forall raw_value : pystr, extract_unit raw_value = []).
  { intros raw_value. unfold extract_unit. by rewrite unit_search_empty. }
  split; [exact H |]. split; [apply H |]. split; [apply H |].
  vm_compute. reflexivity.
Qed.

(** C8.  Stripping the label with [lstrip] removes every leading character
    that occurs in the label, not the label as a prefix: the source
    [economia.uol.com.br/fundos] is stored without its first letter, while
    the source of the end-to-end test, which starts with [h], is stored
    whole. *)
Theorem source_url_loses_leading_label_characters :
  map source_url (aum_snapshots (stored (snd (run_agent bare_host_response))))
  = [Some (u "conomia.uol.com.br/fundos")]
  /\ map source_url (aum_snapshots (stored (snd (run_agent flow_response))))
     = [Some (u "https://fake.url/report")].
Proof. split; vm_compute; reflexivity. Qed.

(** The label is removed and the address kept whole when the address does
    not start with a character of the label. *)
Lemma lstrip_label_exact (c : char) (rest : pystr) :
  char_in c (u "Fonte: ") = false ->
  lstrip_chars (u "Fonte: ") (u "Fonte: " ++ c :: rest) = c :: rest.
Proof.
  intros Hc. change (u "Fonte: ") with [70; 111; 110; 116; 101; 58; 32]%N in *.
  cbn [app lstrip_chars]. cbn -[char_in lstrip_chars].
  change (char_in 70 [70; 111; 110; 116; 101; 58; 32]%N) with true.
  change (char_in 111 [70; 111; 110; 116; 101; 58; 32]%N) with true.
  change (char_in 110 [70; 111; 110; 116; 101; 58; 32]%N) with true.
  change (char_in 116 [70; 111; 110; 116; 101; 58; 32]%N) with true.
  change (char_in 101 [70; 111; 110; 116; 101; 58; 32]%N) with true.
  change (char_in 58 [70; 111; 110; 116; 101; 58; 32]%N) with true.
  change (char_in 32 [70; 111; 110; 116; 101; 58; 32]%N) with true.
  cbn [lstrip_chars]. cbn iota. cbn [lstrip_chars]. by rewrite Hc.
Qed.

(** C3.  A value line that normalizes to zero is a numeric result of the
    normalizer, yet the agent stores no snapshot for it: the test on the
    value takes zero for a failure.  The usage of the call is recorded all
    the same. *)
Theorem zero_value_is_not_persisted :
  normalize_aum_value (u "R$ 0") = Some (S754_zero false)
  /\ splitlines (strip zero_response)
     = [u "R$ 0"; []; u "Fonte: https://fake.url/report"]
  /\ contains NAO_DISPONIVEL (upper (strip zero_response)) = false
  /\ aum_snapshots (stored (snd (run_agent zero_response))) = []
  /\ map tokens_used (usage (stored (snd (run_agent zero_response)))) = [125%Z]
  /\ fst (run_agent zero_response) = Returned tt.
Proof.
  split; [vm_compute; reflexivity |]. split; [vm_compute; reflexivity |].
  split; [vm_compute; reflexivity |]. split; [vm_compute; reflexivity |].
  split; vm_compute; reflexivity.
Qed.

End AgentFacts.

Section AgentInvariant.
Import Normalization Fixtures.

Variable encode : pystr -> list N.
Variable decode : list N -> pystr.
Variable find_all_text : pystr -> list pystr.
Variable arun : pystr -> option (pystr * Z).

Lemma normalize_sentinel : normalize_aum_value NAO_DISPONIVEL = None.
Proof. vm_compute. reflexivity. Qed.

Lemma commit_one_snapshot (t : Tables) (s : AUMSnapshot) :
  match commit (add (SnapshotRow s) {| stored := t; pending := [] |}) with
  | inl _ => True
  | inr db' => aum_snapshots (stored db') = aum_snapshots t ++ [s]
               /\ pending db' = []
  end.
Proof.
  unfold commit, add. cbn.
  destruct (match standardized_value s with
            | Some z => fits_bigint z
            | None => true
            end); cbn; auto.
Qed.

Lemma log_usage_stored (company_id : Z) (operation : pystr) (tokens : Z)
    (t : Tables) :
  log_usage company_id operation tokens {| stored := t; pending := [] |}
  = inr {| stored :=
             {| company_links := company_links t;
                search_results := search_results t;
                scrape_logs := scrape_logs t;
                aum_snapshots := aum_snapshots t;
                usage := usage t
                         ++ [{| usage_company_id := Some company_id;
                                operation_type := operation;
                                tokens_used := tokens |}] |};
           pending := [] |}.
Proof. reflexivity. Qed.

Lemma persist_result_created (company : Company) (result_text : pystr)
    (t : Tables) :
  exists created : list AUMSnapshot,
    aum_snapshots
      (stored (snd (persist_result company result_text
                      {| stored := t; pending := [] |})))
    = aum_snapshots t ++ created
    /\ length created <= 1
    /\ Forall snapshot_nullability created.
Proof.
  assert (Hnone : exists created : list AUMSnapshot,
             aum_snapshots t = aum_snapshots t ++ created
             /\ length created <= 1 /\ Forall snapshot_nullability created).
  { exists []. rewrite app_nil_r. repeat split; [cbn; lia | constructor]. }
  unfold persist_result.
  destruct (contains NAO_DISPONIVEL (upper result_text)).
  - match goal with |- context [commit (add (SnapshotRow ?s) _)] =>
      pose proof (commit_one_snapshot t s) as Hc;
      destruct (commit (add (SnapshotRow s) _)) as [e | db']; cbn [snd];
      [ exact Hnone | exists [s] ]
    end.
    destruct Hc as [-> _]. repeat split; [cbn; lia |].
    constructor; [| constructor].
    split; cbn [standardized_value aum_value aum_unit source_url]; [| done].
    split; [by right | done].
  - destruct (splitlines result_text) as [| raw [| l2 [| src [| ? ?]]]];
      try exact Hnone.
    destruct (normalize_aum_value raw) as [value |] eqn:Hnorm; [| exact Hnone].
    destruct (truthy value); [| exact Hnone].
    destruct (to_int value) as [[|] | z]; try exact Hnone.
    match goal with |- context [commit (add (SnapshotRow ?s) _)] =>
      pose proof (commit_one_snapshot t s) as Hc;
      destruct (commit (add (SnapshotRow s) _)) as [e | db']; cbn [snd];
      [ exact Hnone | exists [s] ]
    end.
    destruct Hc as [-> _]. repeat split; [cbn; lia |].
    constructor; [| constructor].
    assert (Hraw : raw <> NAO_DISPONIVEL).
    { intros ->. rewrite normalize_sentinel in Hnorm. discriminate. }
    split; cbn [standardized_value aum_value aum_unit source_url].
    + split; [discriminate |]. intros [H | H]; congruence.
    + intros H. contradiction.
Qed.

(** Where the agent stores a snapshot: a response without the sentinel and
    with three lines, whose value line normalizes to a float that is not
    zero and whose integer part fits the column. *)
Lemma persist_result_stores_snapshot (company : Company)
    (result_text raw_value line2 source : pystr) (value : float) (z : Z)
    (t : Tables) :
  contains NAO_DISPONIVEL (upper result_text) = false ->
  splitlines result_text = [raw_value; line2; source] ->
  normalize_aum_value raw_value = Some value ->
  truthy value = true ->
  to_int value = inr z ->
  fits_bigint z = true ->
  exists db',
    persist_result company result_text {| stored := t; pending := [] |}
    = (Returned tt, db')
    /\ pending db' = []
    /\ aum_snapshots (stored db')
       = aum_snapshots t
         ++ [{| snapshot_company_id := id company;
                aum_value := raw_value;
                aum_unit := Some [];
                standardized_value := Some z;
                source_url := Some (lstrip_chars (u "Fonte: ") source) |}].
Proof.
  intros Hsent Hlines Hnorm Htruthy Hint Hfits. unfold persist_result.
  rewrite Hsent, Hlines, Hnorm, Htruthy, Hint.
  unfold extract_unit. rewrite unit_search_empty.
  unfold commit, add. cbn [stored pending app flush insert standardized_value].
  rewrite Hfits. eexists. split; [reflexivity |]. by split.
Qed.

(** Where the agent stores nothing: the value line does not normalize. *)
Lemma persist_result_skips_unparseable (company : Company)
    (result_text raw_value line2 source : pystr) (db : Session) :
  contains NAO_DISPONIVEL (upper result_text) = false ->
  splitlines result_text = [raw_value; line2; source] ->
  normalize_aum_value raw_value = None ->
  persist_result company result_text db = (Returned tt, db).
Proof.
  intros Hsent Hlines Hnorm. unfold persist_result.
  by rewrite Hsent, Hlines, Hnorm.
Qed.

(** C4.  Started on a session without queued rows, the agent appends at
    most one snapshot to the stored ones, and the snapshot it appends obeys
    the nullability rule: its standardized value is null exactly when its
    raw value does not normalize or is the sentinel, and a sentinel snapshot
    has null unit, value and source. *)
Theorem extract_aum_snapshot_nullability (company : Company)
    (scraped_pages : list page) (db : Session) :
  pending db = [] ->
  exists created : list AUMSnapshot,
    aum_snapshots
      (stored (snd (extract_aum encode decode find_all_text arun
                      company scraped_pages db)))
    = aum_snapshots (stored db) ++ created
    /\ length created <= 1
    /\ forall s, s ∈ created -> snapshot_nullability s.
Proof.
  intros Hpending. destruct db as [t queue]. cbn in Hpending. subst queue.
  unfold extract_aum.
  destruct (arun _) as [[content total_tokens_used] |].
  - rewrite log_usage_stored. cbn [stored].
    match goal with |- context [persist_result _ _ {| stored := ?t1 |}] =>
      destruct (persist_result_created company (strip content) t1)
        as (created & Heq & Hlen & Hall)
    end.
    exists created. split; [exact Heq |]. split; [exact Hlen |].
    by apply Forall_forall.
  - exists []. cbn [snd stored]. rewrite app_nil_r.
    split; [reflexivity |]. split; [cbn; lia |].
    intros s Hs. by apply elem_of_nil in Hs.
Qed.

End AgentInvariant.

(** On the completion of the end-to-end test the agent stores the snapshot
    with the value 500000000. *)
Lemma extract_aum_snapshot_nullability_flow :
  pending empty_session = []
  /\ exists created : list AUMSnapshot,
       aum_snapshots (stored (snd (Fixtures.run_agent Fixtures.flow_response)))
       = aum_snapshots (stored empty_session) ++ created
       /\ length created <= 1
       /\ forall s, s ∈ created -> snapshot_nullability s.
Proof.
  split; [reflexivity |].
  apply (extract_aum_snapshot_nullability
           Fixtures.char_tokens Fixtures.char_text Fixtures.line_elements
           (Fixtures.answering Fixtures.flow_response)
           Fixtures.flow_test_corp Fixtures.flow_pages empty_session).
  reflexivity.
Defined.

(** A value line beyond the range of the floats normalizes to infinity, and
    the conversion to an integer raises: nothing is stored for it either. *)
Example infinite_value_raises :
  fst (Fixtures.run_agent Fixtures.huge_response) = Raised OverflowError
  /\ aum_snapshots (stored (snd (Fixtures.run_agent Fixtures.huge_response))) = [].
Proof. split; vm_compute; reflexivity. Qed.

(** A response with the sentinel, in any case, stores the sentinel snapshot. *)
Example sentinel_snapshot :
  aum_snapshots (stored (snd (Fixtures.run_agent (u "nao_disponivel"))))
  = [{| snapshot_company_id := 1; aum_value := NAO_DISPONIVEL;
        aum_unit := None; standardized_value := None; source_url := None |}].
Proof. vm_compute. reflexivity. Qed.

(** A response that has neither the sentinel nor three lines raises. *)
Example two_line_response_raises :
  fst (Fixtures.run_agent (u "R$ 1 bi" ++ nl ++ u "Fonte: https://fake.url"))
  = Raised ValueError.
Proof. vm_compute. reflexivity. Qed.

(** The end-to-end example of the test suite: one snapshot with the value
    500000000 and the cited source, and one usage record of 125 tokens. *)
Example process_company_flow :
  map (fun s => (aum_value s, standardized_value s, source_url s))
      (aum_snapshots (stored (snd (Fixtures.run_agent Fixtures.flow_response))))
  = [(u "R$ 500 milhões", Some 500000000%Z, Some (u "https://fake.url/report"))]
  /\ map (fun w => (usage_company_id w, operation_type w, tokens_used w))
         (usage (stored (snd (Fixtures.run_agent Fixtures.flow_response))))
     = [(Some 1%Z, u "aum_extraction", 125%Z)].
Proof. split; vm_compute; reflexivity. Qed.

(** ** The categorizer *)

Section CategorizerFacts.
Import Fixtures.

Implicit Types (categories : gmap pystr (gset pystr)) (r : result).

(** The loop body follows the rule chain of the specification. *)
Lemma categorize_result_chain r categories :
  categorize_result r categories
  = match chosen_bucket r with
    | Some key => bucket_add key (url r) categories
    | None => Some categories
    end.
Proof.
  unfold categorize_result, chosen_bucket, first_rule, excluded_path,
    rule_chain.
  cbn [List.find fst].
  destruct (contains (u "linkedin.com") (url r)); [reflexivity |].
  destruct (contains (u "instagram.com") (url r)).
  { destruct (contains (u "stories") (url r)), (contains (u "reel") (url r));
      reflexivity. }
  destruct (contains (u "twitter.com") (url r) || contains (u "x.com") (url r));
    [reflexivity |].
  destruct (contains (u "facebook.com") (url r)); [reflexivity |].
  destruct (kw_search REPORTS_KW (lower (title r))); [reflexivity |].
  destruct (kw_search NEWS_KW (lower (title r))); reflexivity.
Qed.

Lemma chosen_bucket_key r key :
  chosen_bucket r = Some key -> key ∈ category_keys.
Proof.
  unfold chosen_bucket, first_rule, excluded_path, rule_chain.
  cbn [List.find fst].
  repeat match goal with
         | |- context [if ?b then _ else _] => destruct b
         | |- context [bool_decide ?P] => destruct (bool_decide P)
         end;
    cbn; intros H; try discriminate H; injection H as <-;
    unfold category_keys; rewrite !elem_of_cons; tauto.
Qed.

Lemma bucket_after_add key u categories categories' key' :
  bucket_add key u categories = Some categories' ->
  bucket categories' key'
  = if bool_decide (key = key') then bucket categories key' ∪ {[u]}
    else bucket categories key'.
Proof.
  unfold bucket_add, bucket.
  destruct (categories !! key) as [urls |] eqn:Hk; [| discriminate].
  intros [= <-]. case_bool_decide as Heq.
  - subst key'. by rewrite lookup_insert_eq, Hk.
  - by rewrite lookup_insert_ne.
Qed.

Lemma bucket_add_keys key u categories :
  is_Some (categories !! key) ->
  exists categories',
    bucket_add key u categories = Some categories'
    /\ forall key', is_Some (categories' !! key') <-> is_Some (categories !! key').
Proof.
  intros [urls Hk]. unfold bucket_add. rewrite Hk. eexists. split; [done |].
  intros key'. destruct (decide (key = key')) as [<- | Hne].
  - rewrite lookup_insert_eq, Hk. split; eauto.
  - by rewrite lookup_insert_ne.
Qed.

(** Started on a dictionary that has the seven keys, the categorizer does
    not fail, adds no key, and adds to each bucket the addresses of the
    results the rule chain sends there. *)
Lemma categorize_search_results_buckets (results : list result) :
  forall categories,
    (forall key, key ∈ category_keys -> is_Some (categories !! key)) ->
    exists categories',
      categorize_search_results results categories = Some categories'
      /\ (forall key, is_Some (categories' !! key) <-> is_Some (categories !! key))
      /\ forall key u,
           u ∈ bucket categories' key <->
           u ∈ bucket categories key
           \/ exists r, r ∈ results /\ url r = u /\ chosen_bucket r = Some key.
Proof.
  induction results as [| r results IH]; intros categories Hkeys.
  - exists categories. split; [done |]. split; [done |].
    intros key u'. split; [by left |].
    intros [H | (r & Hr & _)]; [done | by apply elem_of_nil in Hr].
  - cbn [categorize_search_results]. rewrite categorize_result_chain.
    destruct (chosen_bucket r) as [key0 |] eqn:Hb.
    + destruct (bucket_add_keys key0 (url r) categories) as (c1 & Hadd & Hk1).
      { apply Hkeys. by eapply chosen_bucket_key. }
      rewrite Hadd.
      destruct (IH c1) as (c2 & Hcat & Hk2 & Hmem).
      { intros key Hkey. apply Hk1. by apply Hkeys. }
      exists c2. split; [done |]. split.
      { intros key. by rewrite Hk2, Hk1. }
      intros key u'. rewrite Hmem, (bucket_after_add _ _ _ _ key Hadd).
      case_bool_decide as Heq.
      * subst key0. rewrite elem_of_union, elem_of_singleton. split.
        -- intros [[H | ->] | (r' & Hr' & Hu & Hb')]; [by left | |].
           ++ right. exists r. by rewrite elem_of_cons; auto.
           ++ right. exists r'. rewrite elem_of_cons. auto.
        -- intros [H | (r' & [-> | Hr']%elem_of_cons & Hu & Hb')];
             [by left; left | by left; right | right; eauto].
      * split.
        -- intros [H | (r' & Hr' & Hu & Hb')]; [by left |].
           right. exists r'. rewrite elem_of_cons. auto.
        -- intros [H | (r' & [-> | Hr']%elem_of_cons & Hu & Hb')];
             [by left | congruence | right; eauto].
    + destruct (IH categories Hkeys) as (c2 & Hcat & Hk2 & Hmem).
      exists c2. split; [done |]. split; [done |].
      intros key u'. rewrite Hmem. split.
      * intros [H | (r' & Hr' & Hu & Hb')]; [by left |].
        right. exists r'. rewrite elem_of_cons. auto.
      * intros [H | (r' & [-> | Hr']%elem_of_cons & Hu & Hb')];
          [by left | congruence | right; eauto].
Qed.

Lemma empty_categories_keys (key : pystr) :
  key ∈ category_keys -> is_Some (empty_categories !! key).
Proof.
  unfold category_keys. rewrite !elem_of_cons.
  intros [-> | [-> | [-> | [-> | [-> | [-> | [-> | H]]]]]]];
    [ .. | by apply elem_of_nil in H ]; by vm_compute; eauto.
Qed.

Lemma empty_categories_bucket (key u : pystr) : u ∉ bucket empty_categories key.
Proof.
  unfold bucket.
  destruct (empty_categories !! key) as [urls |] eqn:Hk; cbn; [| set_solver].
  apply elem_of_list_to_map_2 in Hk.
  apply list_elem_of_fmap in Hk as (k & [= _ ->] & _). set_solver.
Qed.

Lemma categorize_from_empty (results : list result) :
  exists categories,
    categorize_search_results results empty_categories = Some categories
    /\ forall key u,
         u ∈ bucket categories key <->
         exists r, r ∈ results /\ url r = u /\ chosen_bucket r = Some key.
Proof.
  destruct (categorize_search_results_buckets results empty_categories
              empty_categories_keys) as (categories & Hcat & _ & Hmem).
  exists categories. split; [done |].
  intros key u'. rewrite Hmem. split; [| by right].
  intros [H | H]; [| done]. by apply empty_categories_bucket in H.
Qed.

(** X12.  On the empty dictionary of the discovery the categorizer does
    not raise, and a bucket holds exactly the addresses of the results
    whose first test that holds, in the order of the [if]/[elif] chain,
    selects it, the first four tests being substring tests on the whole
    address; a result is left out of every bucket exactly when that test is
    the Instagram one and its address contains "stories" or "reel"; every
    other result has its address in a bucket; and the buckets are pairwise
    disjoint when results with the same address go to the same bucket. *)
Theorem categorize_search_results_first_rule (results : list result) :
  exists categories,
    categorize_search_results results empty_categories = Some categories
    /\ (forall key u,
          u ∈ bucket categories key <->
          exists r, r ∈ results /\ url r = u /\ chosen_bucket r = Some key)
    /\ (forall r,
          chosen_bucket r = None <->
          first_rule r = u "instagram" /\ excluded_path r = true)
    /\ (forall r,
          r ∈ results -> chosen_bucket r <> None ->
          url r ∈ bucket categories (first_rule r))
    /\ ((forall r1 r2,
           r1 ∈ results -> r2 ∈ results -> url r1 = url r2 ->
           chosen_bucket r1 = chosen_bucket r2) ->
        pairwise_disjoint categories).
Proof.
  destruct (categorize_from_empty results) as (categories & Hcat & Hmem).
  exists categories. split; [done |]. split; [done |]. split; [| split].
  - intros r. unfold chosen_bucket. cbn zeta.
    case_bool_decide as Hk; cbn [andb].
    + destruct (excluded_path r); split; try done; try tauto.
      intros [_ H]; discriminate H.
    + split; [done | tauto].
  - intros r Hr Hb. apply Hmem. exists r. split; [done |]. split; [done |].
    unfold chosen_bucket in *. cbn zeta in *.
    by destruct (bool_decide _ && excluded_path r).
  - intros Hsame key1 key2 Hne u' H1 H2.
    apply Hmem in H1 as (r1 & Hr1 & Hu1 & Hb1).
    apply Hmem in H2 as (r2 & Hr2 & Hu2 & Hb2).
    apply Hne. specialize (Hsame r1 r2 Hr1 Hr2). rewrite Hu1, Hu2 in Hsame.
    specialize (Hsame eq_refl). congruence.
Qed.

(** The buckets need not partition the input.  An Instagram story is put
    in no bucket, so the buckets do not cover the input; and an address
    found under a report title and under a plain title is put in two
    buckets, so the buckets are not disjoint. *)
Lemma categorize_search_results_not_partition :
  (exists categories,
     categorize_search_results story_results empty_categories = Some categories
     /\ ~ exhaustive story_results categories)
  /\ (exists categories,
        categorize_search_results twice_results empty_categories = Some categories
        /\ ~ pairwise_disjoint categories).
Proof.
  split.
  - destruct (categorize_from_empty story_results) as (categories & Hcat & Hmem).
    exists categories. split; [done |]. intros Hex.
    destruct (Hex _ (list_elem_of_here _ _)) as [key Hin].
    apply Hmem in Hin as (r & Hr & _ & Hb).
    apply list_elem_of_singleton in Hr as ->. vm_compute in Hb. discriminate Hb.
  - destruct (categorize_from_empty twice_results) as (categories & Hcat & Hmem).
    exists categories. split; [done |]. intros Hdis.
    apply (Hdis (u "reports") (u "corporate") ltac:(discriminate)
                (u "https://testcorp.com/2024")); apply Hmem.
    + eexists. split; [apply list_elem_of_here |]. split; vm_compute; reflexivity.
    + eexists. split; [apply list_elem_of_further, list_elem_of_here |].
      split; vm_compute; reflexivity.
Qed.

(** C5.  The four domain rules are tested as substrings of the whole
    address.  The address [https://www.linux.com/about] has the host
    [www.linux.com], which is on none of the four domains, and is found
    under a report title: the first rule of the specification that matches
    it is the reports one.  The address contains "x.com", and the
    categorizer puts it in the Twitter/X bucket and not in the reports one.
    Besides, an address found under a report title and under a plain title
    is put in both the reports and the corporate bucket, and an Instagram
    story, which the rules of the specification send to the corporate
    bucket, is put in none. *)
Theorem linux_com_is_taken_for_x_com :
  host (url linux_report) = u "www.linux.com"
  /\ map (fun domain => on_domain (u domain) (url linux_report))
         ["linkedin.com"; "instagram.com"; "twitter.com"; "x.com";
          "facebook.com"]%string
     = [false; false; false; false; false]
  /\ spec_first_rule linux_report = u "reports"
  /\ option_map
       (fun categories =>
          map (fun key => elements (bucket categories key))
              [u "twitter"; u "reports"])
       (categorize_search_results [linux_report] empty_categories)
     = Some [ [u "https://www.linux.com/about"]; [] ]
  /\ option_map
       (fun categories =>
          map (fun key => elements (bucket categories key))
              [u "reports"; u "corporate"])
       (categorize_search_results twice_results empty_categories)
     = Some [ [u "https://testcorp.com/2024"]; [u "https://testcorp.com/2024"] ]
  /\ map spec_first_rule story_results = [u "corporate"]
  /\ option_map
       (fun categories =>
          map (fun key => elements (bucket categories key)) category_keys)
       (categorize_search_results story_results empty_categories)
     = Some [ []; []; []; []; []; []; [] ].
Proof.
  split; [vm_compute; reflexivity |]. split; [vm_compute; reflexivity |].
  split; [vm_compute; reflexivity |]. split; [vm_compute; reflexivity |].
  split; [vm_compute; reflexivity |]. split; vm_compute; reflexivity.
Qed.

(** On the results of the test suite the rules of the specification and
    the tests of the code select the same buckets. *)
Example spec_rules_on_test_results :
  map spec_first_rule test_results
  = [u "linkedin"; u "reports"; u "news"; u "corporate"]
  /\ map chosen_bucket test_results
     = map (fun r => Some (spec_first_rule r)) test_results.
Proof. split; vm_compute; reflexivity. Qed.

(** The example of the test suite. *)
Example categorize_test_results :
  option_map
    (fun categories =>
       map (fun key => elements (bucket categories key))
           [u "linkedin"; u "reports"; u "news"; u "corporate"; u "instagram";
            u "twitter"; u "facebook"])
    (categorize_search_results test_results empty_categories)
  = Some [ [u "https://linkedin.com/company/test"];
           [u "https://example.com/report"];
           [u "https://news.com/article"];
           [u "https://testcorp.com"];
           []; []; [] ].
Proof. vm_compute. reflexivity. Qed.

End CategorizerFacts.

(** ** The database session *)

Section DbFacts.

Lemma link_exists_iff (url : pystr) (t : Tables) :
  link_exists url t = true <-> url ∈ map link_url (company_links t).
Proof.
  unfold link_exists. rewrite existsb_exists, list_elem_of_fmap.
  split.
  - intros (l & Hl & Heq). apply bool_decide_eq_true in Heq.
    exists l. by rewrite list_elem_of_In.
  - intros (l & -> & Hl). exists l. rewrite <- list_elem_of_In.
    split; [done |]. by apply bool_decide_eq_true.
Qed.

Lemma insert_links (r : row) (t t' : Tables) :
  insert r t = inr t' ->
  company_links t' = company_links t ++ links_of [r]
  /\ (urls_unique t -> urls_unique t').
Proof.
  unfold urls_unique.
  destruct r as [l | r | l | s | w]; cbn.
  - destruct (link_exists (link_url l) t) eqn:Hex; [discriminate |].
    intros [= <-]. cbn. split; [done |].
    intros Hnd. rewrite map_app. cbn. apply NoDup_app. split; [done |].
    split; [| apply NoDup_singleton].
    intros x Hx ->%list_elem_of_singleton.
    apply link_exists_iff in Hx. congruence.
  - intros [= <-]. cbn. by rewrite app_nil_r.
  - intros [= <-]. cbn. by rewrite app_nil_r.
  - destruct (match standardized_value s with
              | Some z => fits_bigint z
              | None => true
              end); [| discriminate].
    intros [= <-]. cbn. by rewrite app_nil_r.
  - intros [= <-]. cbn. by rewrite app_nil_r.
Qed.

Lemma links_of_app (rows1 rows2 : list row) :
  links_of (rows1 ++ rows2) = links_of rows1 ++ links_of rows2.
Proof. unfold links_of. apply omap_app. Qed.

Lemma flush_links (rows : list row) :
  forall t t' : Tables,
    flush rows t = inr t' ->
    company_links t' = company_links t ++ links_of rows
    /\ (urls_unique t -> urls_unique t').
Proof.
  induction rows as [| r rows IH]; intros t t'; cbn [flush].
  - intros [= <-]. cbn. by rewrite app_nil_r.
  - destruct (insert r t) as [e | t1] eqn:Hins; [discriminate |].
    intros Hfl. apply insert_links in Hins as [Hl1 Hu1].
    apply IH in Hfl as [Hl2 Hu2]. split; [| tauto].
    rewrite Hl2, Hl1, <- app_assoc. f_equal.
    change (r :: rows) with ([r] ++ rows). by rewrite links_of_app.
Qed.

(** A queue of search results is always stored, and changes no link. *)
Lemma flush_results (rows : list row) :
  Forall (fun r => exists s, r = ResultRow s) rows ->
  forall t : Tables,
    exists t', flush rows t = inr t' /\ company_links t' = company_links t.
Proof.
  induction 1 as [| r rows [s ->] _ IH]; intros t; cbn [flush].
  - by exists t.
  - cbn [insert]. destruct (IH {| company_links := company_links t;
           search_results := search_results t ++ [s];
           scrape_logs := scrape_logs t;
           aum_snapshots := aum_snapshots t;
           usage := usage t |}) as (t' & Hfl & Hl).
    exists t'. by split.
Qed.

End DbFacts.

(** ** The discovery engine *)

Section DiscoveryFacts.

Variable result_anchors : pystr -> option (option (list (pystr * pystr))).
Variable uddg : pystr -> option pystr.

Implicit Types (categories : gmap pystr (gset pystr)) (db : Session).

Local Abbreviation has_keys categories :=
  (forall key, key ∈ category_keys -> is_Some (categories !! key)).

Lemma categorize_search_results_app (l1 l2 : list result) categories :
  categorize_search_results (l1 ++ l2) categories
  = match categorize_search_results l1 categories with
    | Some categories1 => categorize_search_results l2 categories1
    | None => None
    end.
Proof.
  revert categories. induction l1 as [| r l1 IH]; intros categories; cbn; [done |].
  destruct (categorize_result r categories); [apply IH | done].
Qed.

Lemma add_results_pending (company : Company) (q : pystr) (rs : list result) :
  forall db,
    exists rows,
      fold_left
        (fun db res =>
           add (ResultRow {| result_company_id := id company;
                             query := q;
                             result_title := title res;
                             result_url := url res |}) db) rs db
      = {| stored := stored db; pending := pending db ++ map ResultRow rows |}.
Proof.
  induction rs as [| r rs IH]; intros db; cbn [fold_left].
  - exists []. cbn. rewrite app_nil_r. by destruct db.
  - destruct (IH (add (ResultRow {| result_company_id := id company;
                                    query := q;
                                    result_title := title r;
                                    result_url := url r |}) db))
      as (rows & ->).
    eexists (_ :: rows). cbn. by rewrite <- app_assoc.
Qed.

(** The searches of a schedule leave the stored tables alone, queue search
    results only, and make of the dictionary what the categorizer makes of
    all their hits. *)
Lemma search_phase (company : Company) (schedule : list pystr) :
  forall db categories,
    has_keys categories ->
    exists db1 categories1 rows,
      fold_left (fun st q => search_and_process result_anchors uddg company q st)
                schedule (db, categories)
      = (db1, categories1)
      /\ stored db1 = stored db
      /\ pending db1 = pending db ++ map ResultRow rows
      /\ categorize_search_results
           (all_hits result_anchors uddg schedule (name company)) categories
         = Some categories1
      /\ has_keys categories1.
Proof.
  induction schedule as [| q schedule IH]; intros db categories Hkeys;
    cbn [fold_left all_hits flat_map].
  - exists db, categories, []. cbn. by rewrite app_nil_r.
  - fold (all_hits result_anchors uddg schedule (name company)).
    unfold search_and_process at 2.
    destruct (duckduckgo_search result_anchors uddg q (name company))
      as [search_res |]; cbn [from_option Datatypes.id app].
    + destruct (add_results_pending company q search_res db) as (rows0 & Hadd).
      destruct (categorize_search_results_buckets search_res categories Hkeys)
        as (c1 & Hc1 & Hk1 & _).
      assert (Hkeys1 : has_keys c1) by (intros key Hk; apply Hk1; auto).
      destruct (IH {| stored := stored db;
                      pending := pending db ++ map ResultRow rows0 |} c1 Hkeys1)
        as (db1 & c2 & rows1 & Hfold & Hst & Hpe & Hcat & Hk2).
      exists db1, c2, (rows0 ++ rows1).
      split; [by rewrite Hadd, Hc1 |]. split; [done |].
      split; [by rewrite Hpe, map_app, app_assoc |].
      split; [| done].
      by rewrite categorize_search_results_app, Hc1.
    + destruct (IH db categories Hkeys)
        as (db1 & c2 & rows1 & Hfold & Hst & Hpe & Hcat & Hk2).
      by exists db1, c2, rows1.
Qed.

Lemma add_new_links_inner (company : Company) (key : pystr) (urls : list pystr) :
  forall db,
    exists links,
      fold_left
        (fun db url =>
           if link_exists url (stored db) then db
           else add (LinkRow {| link_company_id := id company;
                                platform := key;
                                link_url := url |}) db) urls db
      = {| stored := stored db; pending := pending db ++ map LinkRow links |}
      /\ (forall l, l ∈ links ->
            link_exists (link_url l) (stored db) = false /\ link_url l ∈ urls)
      /\ (forall url, url ∈ urls ->
            link_exists url (stored db) = true
            \/ exists l, l ∈ links /\ link_url l = url).
Proof.
  induction urls as [| url urls IH]; intros db; cbn [fold_left].
  - exists []. cbn. rewrite app_nil_r. split; [by destruct db |].
    split; intros ? H; by apply elem_of_nil in H.
  - destruct (link_exists url (stored db)) eqn:Hex.
    + destruct (IH db) as (links & -> & Hnew & Hall).
      exists links. split; [done |]. split.
      * intros l Hl. destruct (Hnew l Hl). split; [done |].
        apply elem_of_cons. by right.
      * intros url' [-> | H]%elem_of_cons; [by left | by apply Hall].
    + destruct (IH (add (LinkRow {| link_company_id := id company;
                                    platform := key;
                                    link_url := url |}) db))
        as (links & -> & Hnew & Hall).
      eexists (_ :: links). cbn. rewrite <- app_assoc. split; [done |]. split.
      * intros l [-> | Hl]%elem_of_cons.
        -- cbn. split; [done |]. apply elem_of_cons. by left.
        -- destruct (Hnew l Hl). split; [done |]. apply elem_of_cons. by right.
      * intros url' [-> | H]%elem_of_cons.
        -- right. eexists. split; [apply elem_of_cons; by left | done].
        -- destruct (Hall url' H) as [? | (l & Hl & <-)]; [by left |].
           right. exists l. split; [| done]. apply elem_of_cons. by right.
Qed.

Lemma add_new_links_outer (company : Company) categories (keys : list pystr) :
  forall db,
    exists links,
      fold_left
        (fun db platform =>
           fold_left
             (fun db url =>
                if link_exists url (stored db) then db
                else add (LinkRow {| link_company_id := id company;
                                     platform := platform;
                                     link_url := url |}) db)
             (elements (default ∅ (categories !! platform))) db)
        keys db
      = {| stored := stored db; pending := pending db ++ map LinkRow links |}
      /\ (forall l, l ∈ links ->
            link_exists (link_url l) (stored db) = false
            /\ exists key, key ∈ keys /\ link_url l ∈ bucket categories key)
      /\ (forall key url, key ∈ keys -> url ∈ bucket categories key ->
            link_exists url (stored db) = true
            \/ exists l, l ∈ links /\ link_url l = url).
Proof.
  induction keys as [| key keys IH]; intros db; cbn [fold_left].
  - exists []. cbn. rewrite app_nil_r. split; [by destruct db |].
    split; [intros ? H; by apply elem_of_nil in H |].
    intros ? ? H; by apply elem_of_nil in H.
  - destruct (add_new_links_inner company key
                (elements (default ∅ (categories !! key))) db)
      as (links0 & -> & Hnew0 & Hall0).
    destruct (IH {| stored := stored db;
                    pending := pending db ++ map LinkRow links0 |})
      as (links1 & -> & Hnew1 & Hall1).
    cbn [stored pending] in *.
    exists (links0 ++ links1). rewrite map_app, app_assoc. split; [done |].
    split.
    + intros l [Hl | Hl]%elem_of_app.
      * destruct (Hnew0 l Hl) as [Hex Hin]. split; [done |].
        exists key. split; [apply elem_of_cons; by left |].
        by apply elem_of_elements in Hin.
      * destruct (Hnew1 l Hl) as [Hex (key' & Hk & Hin)]. split; [done |].
        exists key'. split; [apply elem_of_cons; by right | done].
    + intros key' url [-> | Hk]%elem_of_cons Hin.
      * destruct (Hall0 url) as [? | (l & Hl & <-)];
          [by apply elem_of_elements | by left |].
        right. exists l. split; [| done]. apply elem_of_app. by left.
      * destruct (Hall1 key' url Hk Hin) as [? | (l & Hl & <-)]; [by left |].
        right. exists l. split; [| done]. apply elem_of_app. by right.
Qed.

(** The dictionary does not depend on the order of the hits. *)
Lemma categorize_search_results_permutation (l1 l2 : list result) categories :
  l1 ≡ₚ l2 ->
  has_keys categories ->
  categorize_search_results l1 categories
  = categorize_search_results l2 categories.
Proof.
  intros Hperm Hkeys.
  destruct (categorize_search_results_buckets l1 categories Hkeys)
    as (c1 & -> & Hk1 & Hm1).
  destruct (categorize_search_results_buckets l2 categories Hkeys)
    as (c2 & -> & Hk2 & Hm2).
  f_equal. apply map_eq. intros key.
  assert (Hmem : forall x, x ∈ bucket c1 key <-> x ∈ bucket c2 key).
  { intros x. rewrite Hm1, Hm2. split; intros [H | (r & Hr & Hx)]; auto;
      right; exists r; split; auto;
      first [by rewrite <- Hperm | by rewrite Hperm]. }
  specialize (Hk1 key). specialize (Hk2 key). unfold bucket in Hmem.
  destruct (c1 !! key) as [s1 |] eqn:E1, (c2 !! key) as [s2 |] eqn:E2;
    cbn in Hmem.
  - f_equal. by apply set_eq.
  - exfalso. assert (H : is_Some (None : option (gset pystr))) by
      (apply Hk2, Hk1; eauto). by destruct H.
  - exfalso. assert (H : is_Some (None : option (gset pystr))) by
      (apply Hk1, Hk2; eauto). by destruct H.
  - done.
Qed.

Lemma all_hits_permutation (schedule1 schedule2 : list pystr) (company_name : pystr) :
  schedule1 ≡ₚ schedule2 ->
  all_hits result_anchors uddg schedule1 company_name
  ≡ₚ all_hits result_anchors uddg schedule2 company_name.
Proof.
  intros H. unfold all_hits. rewrite !flat_map_concat_map.
  by rewrite H.
Qed.

Lemma links_of_results_links (rows : list SearchResult) (links : list CompanyLink) :
  links_of (map ResultRow rows ++ map LinkRow links) = links.
Proof.
  rewrite links_of_app. unfold links_of.
  replace (omap _ (map ResultRow rows)) with (@nil CompanyLink).
  - cbn [app]. induction links as [| l links IH]; cbn; [done |]. by rewrite IH.
  - induction rows as [| r rows IH]; cbn; [done |]. exact IH.
Qed.

(** C6.  When a discovery started on a session without queued rows
    commits, the addresses of the stored links are pairwise distinct if
    they were so before; the links it stored are for addresses that no
    stored link had; and a second discovery of a company of that name, over
    the same answers of the search provider and under any schedule of the
    same queries, commits the same dictionary and stores no further link. *)
Theorem discovery_stores_each_url_once (schedule : list pystr)
    (company : Company) (db db' : Session)
    (discovered_urls : gmap pystr (gset pystr)) :
  pending db = [] ->
  urls_unique (stored db) ->
  discover_company_resources result_anchors uddg schedule company db
  = (Returned discovered_urls, db') ->
  urls_unique (stored db')
  /\ (exists added,
        company_links (stored db') = company_links (stored db) ++ added
        /\ forall l, l ∈ added ->
             link_exists (link_url l) (stored db) = false)
  /\ forall (schedule2 : list pystr) (company2 : Company),
       schedule2 ≡ₚ schedule ->
       name company2 = name company ->
       exists db'',
         discover_company_resources result_anchors uddg schedule2 company2 db'
         = (Returned discovered_urls, db'')
         /\ company_links (stored db'') = company_links (stored db').
Proof.
  intros Hpending Hunique. unfold discover_company_resources.
  destruct (search_phase company schedule db empty_categories
              empty_categories_keys)
    as (db1 & c1 & rows1 & -> & Hst1 & Hpe1 & Hcat1 & Hk1).
  unfold add_new_links.
  destruct (add_new_links_outer company c1 category_keys db1)
    as (links1 & -> & Hnew1 & Hall1).
  rewrite Hst1, Hpe1, Hpending in *. cbn [app].
  unfold commit. cbn [stored pending].
  destruct (flush _ (stored db)) as [e | t'] eqn:Hfl; [discriminate |].
  intros [= <- <-]. cbn [stored].
  apply flush_links in Hfl as [Hlinks Huniq].
  rewrite links_of_results_links in Hlinks.
  split; [by apply Huniq |]. split.
  { exists links1. split; [done |]. intros l Hl. by destruct (Hnew1 l Hl). }
  intros schedule2 company2 Hperm Hname.
  destruct (search_phase company2 schedule2
              {| stored := t'; pending := [] |} empty_categories
              empty_categories_keys)
    as (db2 & c2 & rows2 & -> & Hst2 & Hpe2 & Hcat2 & Hk2).
  assert (c2 = c1) as ->.
  { rewrite Hname in Hcat2.
    rewrite (categorize_search_results_permutation _
               (all_hits result_anchors uddg schedule (name company)))
      in Hcat2; [congruence | by apply all_hits_permutation |
                 apply empty_categories_keys]. }
  destruct (add_new_links_outer company2 c1 category_keys db2)
    as (links2 & -> & Hnew2 & Hall2).
  assert (links2 = []) as ->.
  { destruct links2 as [| l links2]; [done |]. exfalso.
    destruct (Hnew2 l (list_elem_of_here _ _)) as [Hex (key & Hkey & Hin)].
    rewrite Hst2 in Hex. cbn [stored] in Hex.
    assert (Htrue : link_exists (link_url l) t' = true); [| congruence].
    apply link_exists_iff. rewrite Hlinks, map_app, elem_of_app.
    destruct (Hall1 key (link_url l) Hkey Hin) as [H | (l1 & Hl1 & Heq)].
    - left. by apply link_exists_iff.
    - right. apply list_elem_of_fmap. by exists l1. }
  rewrite Hst2, Hpe2. cbn [stored pending map app]. rewrite app_nil_r.
  destruct (flush_results (map ResultRow rows2)) with (t := t')
    as (t'' & Hfl2 & Hl2).
  { apply Forall_forall. intros r (s & -> & _)%list_elem_of_fmap. by exists s. }
  rewrite Hfl2. exists {| stored := t''; pending := [] |}. by split.
Qed.

End DiscoveryFacts.

Section DiscoveryExamples.
Import Fixtures.

Lemma first_discovery_returns :
  first_discovery = (Returned first_discovered, snd first_discovery).
Proof. vm_compute. reflexivity. Qed.

(** The first discovery of the example stores each of the two addresses
    once, and the second one, run with the queries in reverse order, stores
    nothing more. *)
Lemma discovery_stores_each_url_once_example :
  urls_unique (stored (snd first_discovery))
  /\ (exists added,
        company_links (stored (snd first_discovery))
        = company_links (stored empty_session) ++ added
        /\ forall l, l ∈ added ->
             link_exists (link_url l) (stored empty_session) = false)
  /\ forall (schedule2 : list pystr) (company2 : Company),
       schedule2 ≡ₚ search_queries (name discovery_test_corp) ->
       name company2 = name discovery_test_corp ->
       exists db'',
         discover_company_resources two_anchors redirect_target
           schedule2 company2 (snd first_discovery)
         = (Returned first_discovered, db'')
         /\ company_links (stored db'')
            = company_links (stored (snd first_discovery)).
Proof.
  apply (discovery_stores_each_url_once two_anchors redirect_target
           (search_queries (name discovery_test_corp)) discovery_test_corp
           empty_session (snd first_discovery) first_discovered).
  - reflexivity.
  - apply NoDup_nil_2.
  - exact first_discovery_returns.
Defined.

Example second_discovery_adds_no_link :
  map (fun l => (platform l, link_url l))
      (company_links (stored (snd first_discovery)))
  = [ (u "corporate", u "https://discoverytest.com");
      (u "linkedin", u "https://linkedin.com/company/discovery-test") ]
  /\ company_links (stored (snd second_discovery))
     = company_links (stored (snd first_discovery))
  /\ length (search_results (stored (snd second_discovery))) = 32.
Proof. split; [| split]; vm_compute; reflexivity. Qed.

(** An address found under two titles that select different rules is in two
    buckets; neither link is stored yet when the second is checked, both are
    queued, and the commit is refused by the uniqueness constraint. *)
Example same_url_in_two_buckets_is_refused :
  discover_company_resources two_titles redirect_target
    (search_queries (name discovery_test_corp)) discovery_test_corp
    empty_session
  = (Raised IntegrityError, empty_session).
Proof. vm_compute. reflexivity. Qed.

End DiscoveryExamples.

(** ** The scrape orchestrator *)

Section ScrapingFacts.

Variable browser : Browser.

Implicit Types (it : item) (company : Company).

(** What a unit adds to the two lists when its tab opens. *)
Lemma scrape_content_adds company it (tab : Tab) (pages : list page)
    (logs : list ScrapeLog) :
  item_url it <> [] ->
  new_tab browser it = inr tab ->
  scrape_content browser company it (pages, logs)
  = inr (pages ++
         match load_page tab (item_url it) (item_category it) with
         | inr (c :: cs) =>
           [{| page_url := item_url it; page_category := item_category it;
               page_content := c :: cs |}]
         | _ => []
         end,
         logs ++ [log_of company it tab]).
Proof.
  intros Hurl Htab. unfold scrape_content, log_of, scrape_single_url.
  destruct (item_url it) as [| a url]; [done |]. rewrite Htab. cbn [and_then].
  destruct (load_page tab (a :: url) (item_category it))
    as [error | [| c cs]]; cbn; by rewrite ?app_nil_r.
Qed.

(** The units of a schedule whose tabs all open. *)
Lemma gather_works company (schedule : list item) :
  forall (pages : list page) (logs : list ScrapeLog),
    forallb (fun it => completes (new_tab browser it)) (attempted schedule)
    = true ->
    exists fetched new_logs,
      gather browser company schedule (pages, logs)
      = inr (pages ++ fetched, logs ++ new_logs)
      /\ Forall2 (fun it l =>
                    exists tab,
                      new_tab browser it = inr tab /\ l = log_of company it tab)
                 (attempted schedule) new_logs
      /\ forall p,
           p ∈ fetched <->
           exists it tab,
             it ∈ attempted schedule
             /\ new_tab browser it = inr tab
             /\ page_content p <> []
             /\ load_page tab (item_url it) (item_category it)
                = inr (page_content p)
             /\ page_url p = item_url it
             /\ page_category p = item_category it.
Proof.
  induction schedule as [| it schedule IH]; intros pages logs Hall;
    cbn [gather].
  - exists [], []. cbn. rewrite !app_nil_r. split; [done |].
    split; [constructor |].
    intros p. split; [intros H; by apply elem_of_nil in H |].
    intros (it & tab & H & _); by apply elem_of_nil in H.
  - unfold attempted in Hall |- *. cbn [List.filter] in Hall |- *.
    fold (attempted schedule) in Hall |- *.
    destruct (item_url it) as [| a url] eqn:Hurl.
    + rewrite bool_decide_eq_true_2 in Hall |- * by done. cbn [negb] in *.
      unfold scrape_content. rewrite Hurl. cbn [and_then].
      destruct (IH pages logs Hall) as (fetched & new_logs & -> & Hlogs & Hmem).
      by exists fetched, new_logs.
    + rewrite bool_decide_eq_false_2 in Hall |- * by done. cbn [negb] in *.
      cbn [forallb] in Hall. apply andb_true_iff in Hall as [Htab Hall].
      destruct (new_tab browser it) as [e | tab] eqn:Hnew; [discriminate |].
      rewrite (scrape_content_adds company it tab) by (done || congruence).
      cbn [and_then].
      match goal with |- context [gather _ _ _ (pages ++ ?new, _)] =>
        destruct (IH (pages ++ new) (logs ++ [log_of company it tab]) Hall)
          as (fetched & new_logs & -> & Hlogs & Hmem);
        exists (new ++ fetched), (log_of company it tab :: new_logs)
      end.
      split; [by rewrite <- !app_assoc |]. split.
      { constructor; [by exists tab | done]. }
      intros p. rewrite elem_of_app, Hmem. split.
      * intros [Hp | (it' & tab' & Hit' & Hrest)].
        -- exists it, tab. split; [apply elem_of_cons; by left |].
           split; [done |]. rewrite Hurl in Hp |- *.
           destruct (load_page tab (a :: url) (item_category it))
             as [error | [| c cs]]; try by apply elem_of_nil in Hp.
           apply list_elem_of_singleton in Hp as ->. by cbn.
        -- exists it', tab'. split; [apply elem_of_cons; by right | done].
      * intros (it' & tab' & [-> | Hit']%elem_of_cons & Htab' & Hne & Hload
                & Hu & Hc).
        -- left. assert (tab' = tab) as -> by congruence.
           rewrite Hurl in Hload |- *. rewrite Hload.
           destruct p as [pu pc [| c cs]]; cbn in *; [done |].
           apply list_elem_of_singleton. by rewrite Hu, Hc, Hurl.
        -- right. by exists it', tab'.
Qed.

(** A unit whose tab does not open makes [gather] raise. *)
Lemma gather_raises company (schedule : list item) :
  forall (st : list page * list ScrapeLog),
    forallb (fun it => completes (new_tab browser it)) (attempted schedule)
    = false ->
    exists e, gather browser company schedule st = inl e.
Proof.
  induction schedule as [| it schedule IH]; intros [pages logs] Hall;
    cbn [gather]; [discriminate |].
  unfold attempted in Hall. cbn [List.filter] in Hall.
  fold (attempted schedule) in Hall.
  unfold scrape_content at 1.
  destruct (item_url it) as [| a url] eqn:Hurl.
  - rewrite bool_decide_eq_true_2 in Hall by done. cbn [negb] in Hall.
    cbn [and_then]. by apply IH.
  - rewrite bool_decide_eq_false_2 in Hall by done. cbn [negb forallb] in Hall.
    destruct (new_tab browser it) as [e | tab]; cbn [and_then];
      [by exists e |].
    cbn [completes andb] in Hall.
    destruct (scrape_single_url tab (a :: url) (item_category it) (id company))
      as [[[| c cs] |] log_entry]; cbn [and_then]; by apply IH.
Qed.

(** A queue of log entries is always stored. *)
Lemma flush_logs (logs : list ScrapeLog) :
  forall t : Tables,
    exists t',
      flush (map LogRow logs) t = inr t'
      /\ scrape_logs t' = scrape_logs t ++ logs.
Proof.
  induction logs as [| l logs IH]; intros t; cbn [map flush insert].
  - exists t. by rewrite app_nil_r.
  - destruct (IH {| company_links := company_links t;
                    search_results := search_results t;
                    scrape_logs := scrape_logs t ++ [l];
                    aum_snapshots := aum_snapshots t;
                    usage := usage t |}) as (t' & -> & Hl).
    exists t'. split; [done |]. rewrite Hl. cbn. by rewrite <- app_assoc.
Qed.

Lemma attempted_permutation (l1 l2 : list item) :
  l1 ≡ₚ l2 -> attempted l1 ≡ₚ attempted l2.
Proof.
  unfold attempted. induction 1; cbn.
  - done.
  - destruct (negb _); [by constructor | done].
  - destruct (negb _), (negb _); try done. apply perm_swap.
  - etrans; eauto.
Qed.


End ScrapingFacts.

Section ScrapingExamples.
Import Fixtures.

(** The queue follows the priority order. *)
Example urls_to_scrape_priority :
  urls_to_scrape test_discovered_urls
  = [ {| item_url := u "https://testcorp.com/reports"; item_category := u "reports" |};
      {| item_url := u "https://testcorp.com"; item_category := u "corporate" |};
      {| item_url := u "https://linkedin.com/company/testcorp";
         item_category := u "linkedin" |} ].
Proof. vm_compute. reflexivity. Qed.

(** With the report timing out, the two other pages are returned and three
    entries are stored, the failed one with the message and its length. *)
Example scrape_with_timeout :
  option_map (map page_url)
    (match fst (scrape_discovered_urls test_browser
                  (urls_to_scrape test_discovered_urls) scraping_test_corp
                  empty_session) with
     | Returned pages => Some pages
     | Raised _ => None
     end)
  = Some [u "https://testcorp.com"; u "https://linkedin.com/company/testcorp"]
  /\ map (fun l => (status l, content_length l, error_msg l))
         (scrape_logs (stored (snd (scrape_discovered_urls test_browser
            (urls_to_scrape test_discovered_urls) scraping_test_corp
            empty_session))))
     = [ (u "FAILED", Some 12%Z, Some (u "Page timeout"));
         (u "SUCCESS", Some 33%Z, None);
         (u "SUCCESS", Some 50%Z, None) ].
Proof. split; vm_compute; reflexivity. Qed.

(** With no tab for the LinkedIn page, the exception of [new_tab] leaves
    the function: the two fetches made before it have no stored entry. *)
Example scrape_with_crashing_browser :
  scrape_discovered_urls crashing_browser
    (urls_to_scrape test_discovered_urls) scraping_test_corp empty_session
  = (Raised (BrowserError (u "Target closed")), empty_session).
Proof. vm_compute. reflexivity. Qed.



End ScrapingExamples.

(** ** The concurrency limiters *)

Section LimiterFacts.
Import Limiter Fixtures.

Lemma in_flight_insert (l : list unit_state) (i : nat) (s s' : unit_state) :
  l !! i = Some s ->
  length (filter (fun x => x = InFlight) (<[i := s']> l))
  + (if decide (s = InFlight) then 1 else 0)
  = length (filter (fun x => x = InFlight) l)
    + (if decide (s' = InFlight) then 1 else 0).
Proof.
  revert i. induction l as [| a l IH]; intros i Hi; [done |].
  destruct i as [| i]; cbn in Hi.
  - injection Hi as ->. change (<[0:=s']> (s :: l)) with (s' :: l).
    rewrite !filter_cons.
    repeat case_decide; cbn [length]; first [lia | congruence].
  - change (<[S i:=s']> (a :: l)) with (a :: <[i:=s']> l).
    rewrite !filter_cons. specialize (IH i Hi).
    repeat case_decide; cbn [length]; first [lia | congruence].
Qed.

Lemma in_flight_new_pool (n : nat) : in_flight (new_pool n) = 0.
Proof.
  unfold in_flight, new_pool. cbn. induction n as [| n IH]; [done |].
  cbn [replicate]. rewrite filter_cons. by case_decide.
Qed.

Lemma pool_step_balanced (p p' : pool) :
  pool_step p p' -> balanced p -> balanced p'.
Proof.
  unfold balanced, in_flight. intros [q i Hi Hpos | q i Hi] Hb; cbn in *.
  - pose proof (in_flight_insert _ _ _ InFlight Hi) as H.
    repeat case_decide; first [lia | congruence].
  - pose proof (in_flight_insert _ _ _ Finished Hi) as H.
    repeat case_decide; first [lia | congruence].
Qed.

Lemma reachable_balanced (r : run) :
  reachable r ->
  match r with
  | Discovering p | Scraping p => balanced p
  | Extracting => True
  end.
Proof.
  induction 1 as [| r r' _ IH Hstep].
  - unfold start, balanced. by rewrite in_flight_new_pool.
  - destruct Hstep as [p p' Hp | p urls _ | p p' Hp | p _].
    + by eapply pool_step_balanced.
    + unfold balanced. by rewrite in_flight_new_pool.
    + by eapply pool_step_balanced.
    + done.
Qed.

(** C10.  In every state a run of the pipeline can reach, at most 4
    searches are inside the limiter of the discovery and at most 4 fetches
    inside the limiter of the scraping; each phase counts against its own
    semaphore of 4 permits, and no search is in flight while fetches are. *)
Theorem at_most_four_in_flight (r : run) :
  reachable r ->
  searches_in_flight r <= 4
  /\ fetches_in_flight r <= 4
  /\ (searches_in_flight r = 0 \/ fetches_in_flight r = 0).
Proof.
  intros Hr. apply reachable_balanced in Hr.
  destruct r as [p | p |]; unfold balanced in Hr; cbn; lia.
Qed.

Lemma acquire_step (p : pool) (i : nat) :
  reachable (Discovering p) ->
  units p !! i = Some Waiting ->
  0 < permits p ->
  reachable (Discovering {| permits := permits p - 1;
                            units := <[i := InFlight]> (units p) |}).
Proof.
  intros Hr Hi Hpos. eapply reach_step; [exact Hr |].
  apply search_step. by apply acquire.
Qed.

Lemma four_searching_reachable : reachable four_searching.
Proof.
  pose proof reach_start as H0. unfold start in H0.
  apply (acquire_step _ 0) in H0; [| reflexivity | cbn; lia].
  apply (acquire_step _ 1) in H0; [| reflexivity | cbn; lia].
  apply (acquire_step _ 2) in H0; [| reflexivity | cbn; lia].
  apply (acquire_step _ 3) in H0; [| reflexivity | cbn; lia].
  exact H0.
Qed.

(** With four searches in flight the bound is met, and no fifth search can
    enter. *)
Lemma at_most_four_in_flight_example :
  searches_in_flight four_searching <= 4
  /\ fetches_in_flight four_searching <= 4
  /\ (searches_in_flight four_searching = 0
      \/ fetches_in_flight four_searching = 0).
Proof.
  apply (at_most_four_in_flight four_searching).
  exact four_searching_reachable.
Defined.

Example four_searching_is_full :
  searches_in_flight four_searching = 4.
Proof. reflexivity. Qed.

End LimiterFacts.

(* ===================================================================== *)
(** * Further properties of the code *)
(* ===================================================================== *)

Import Shapes.

(** ** More on the value normalizer *)

Section NormalizerMore.
Import Normalization Fixtures.

Local Open Scope N_scope.

Lemma lower_char_idempotent (c : char) : lower_char (lower_char c) = lower_char c.
Proof.
  unfold lower_char at 2 3.
  destruct (in_range 65 90 c || in_range 192 214 c || in_range 216 222 c)
    eqn:E; [| unfold lower_char; by rewrite E].
  unfold lower_char.
  replace (in_range 65 90 (c + 32) || in_range 192 214 (c + 32)
           || in_range 216 222 (c + 32)) with false; [done |].
  symmetry. apply not_true_iff_false. unfold in_range in *.
  rewrite !orb_true_iff, !andb_true_iff, !N.leb_le in *. lia.
Qed.

Lemma lower_idempotent (s : pystr) : lower (lower s) = lower s.
Proof.
  unfold lower. rewrite map_map. apply map_ext. intros c.
  apply lower_char_idempotent.
Qed.

Lemma isdecimal_lower_char (c : char) :
  isdecimal_char (lower_char c) = isdecimal_char c.
Proof.
  unfold isdecimal_char, lower_char.
  destruct (in_range 65 90 c || in_range 192 214 c || in_range 216 222 c)
    eqn:E; [| reflexivity].
  unfold in_range in *. apply eq_true_iff_eq.
  rewrite !andb_true_iff, !N.leb_le.
  rewrite !orb_true_iff, !andb_true_iff, !N.leb_le in E. lia.
Qed.

Lemma sub_go_subset (ignorecase : bool) (r : regex) (s : pystr) :
  forall (skip : nat) (c : char),
    c ∈ sub_go ignorecase r [] skip s -> c ∈ s.
Proof.
  induction s as [| c0 s IH]; intros skip c.
  - destruct skip; cbn [sub_go]; [| done].
    destruct (match_len ignorecase r false []) as [[| k] |]; cbn [app]; try done.
    by destruct (match_len ignorecase r true []) as [[| k] |].
  - destruct skip as [| k]; cbn [sub_go].
    + destruct (match_len ignorecase r false (c0 :: s)) as [[| k] |]; cbn [app].
      * destruct (match_len ignorecase r true (c0 :: s)) as [[| k] |]; cbn [app].
        -- intros [-> | H]%elem_of_cons; apply elem_of_cons; eauto.
        -- intros H. apply elem_of_cons. eauto.
        -- intros [-> | H]%elem_of_cons; apply elem_of_cons; eauto.
      * intros H. apply elem_of_cons. eauto.
      * intros [-> | H]%elem_of_cons; apply elem_of_cons; eauto.
    + intros H. apply elem_of_cons. eauto.
Qed.

Lemma elem_of_replace_char (c old : char) (new s : pystr) :
  c ∈ replace_char old new s -> c ∈ new \/ c ∈ s.
Proof.
  unfold replace_char. rewrite !list_elem_of_In, in_flat_map.
  intros (x & Hx & Hc). destruct (x =? old).
  - by left.
  - right. destruct Hc as [<- | []]. done.
Qed.

Lemma split_parts_fold (text : pystr) :
  forall number_part multiplier_part : pystr,
    fold_left
      (fun '(number_part_str, multiplier_part_str) chr =>
         if isdigit_char chr || (chr =? 46)
         then (number_part_str ++ [chr], multiplier_part_str)
         else (number_part_str, multiplier_part_str ++ [chr]))
      text (number_part, multiplier_part)
    = (number_part
         ++ List.filter (fun c => isdigit_char c || (c =? 46)) text,
       multiplier_part
         ++ List.filter (fun c => negb (isdigit_char c || (c =? 46))) text).
Proof.
  induction text as [| c text IH]; intros number_part multiplier_part;
    cbn [fold_left List.filter].
  - by rewrite !app_nil_r.
  - destruct (isdigit_char c || (c =? 46)); cbn [negb]; rewrite IH;
      by rewrite <- app_assoc.
Qed.

(** The separation loop keeps the order of the characters: the numeric run
    is the digits and dots of the text, the multiplier token is the rest. *)
Lemma split_parts_filter (text : pystr) :
  split_parts text
  = (List.filter (fun c => isdigit_char c || (c =? 46)) text,
     List.filter (fun c => negb (isdigit_char c || (c =? 46))) text).
Proof. unfold split_parts. by rewrite split_parts_fold. Qed.

Lemma float_of_number_part_needs_digit (s : pystr) :
  (forall c, c ∈ s -> isdecimal_char c = false) ->
  float_of_number_part s = None.
Proof.
  intros Hs. unfold float_of_number_part.
  destruct s as [| c frac]; [done |].
  cbn [span]. rewrite (Hs c) by (apply elem_of_cons; by left).
  destruct (c =? 46); [| done]. cbn [andb length Nat.add].
  destruct frac as [| d frac]; [done |].
  cbn [forallb]. rewrite (Hs d); [done |].
  apply elem_of_cons. right. apply elem_of_cons. by left.
Qed.

(** X1.  A raw value made of code points of U+0000..U+00FF and euro
    signs that has none of the digits 0 to 9 is never normalized. *)
Theorem normalize_needs_a_digit (raw_value : pystr) :
  within_tables raw_value = true ->
  (forall c, c ∈ raw_value -> isdecimal_char c = false) ->
  normalize_aum_value raw_value = None.
Proof.
  intros _ Hraw. unfold normalize_aum_value.
  destruct (PyStr.isalpha (lower raw_value)); [done |].
  assert (Hclean : forall c, c ∈ strip_symbols (lower raw_value) ->
                             isdecimal_char c = false).
  { intros c Hc. unfold strip_symbols, sub in Hc.
    apply elem_of_strip, sub_go_subset in Hc.
    apply list_elem_of_fmap in Hc as (c0 & -> & Hc0).
    rewrite isdecimal_lower_char. by apply Hraw. }
  match goal with |- context [split_parts ?t] =>
    assert (Htext : forall c, c ∈ t -> isdecimal_char c = false)
  end.
  { destruct (contains (u ".") _ && contains (u ",") _); intros c Hc.
    - apply elem_of_replace_char in Hc as [Hc | Hc].
      + apply list_elem_of_singleton in Hc as ->. reflexivity.
      + apply elem_of_replace_char in Hc as [Hc | Hc];
          [by apply elem_of_nil in Hc | by apply Hclean].
    - apply elem_of_replace_char in Hc as [Hc | Hc]; [| by apply Hclean].
      apply list_elem_of_singleton in Hc as ->. reflexivity. }
  rewrite split_parts_filter.
  rewrite float_of_number_part_needs_digit; [done |].
  intros c Hc. apply Htext. rewrite list_elem_of_In in Hc.
  apply filter_In in Hc as [Hc _]. by rewrite list_elem_of_In.
Qed.

Lemma normalize_needs_a_digit_example :
  normalize_aum_value (u "R$ ²³,¹ bilhões") = None.
Proof.
  apply (normalize_needs_a_digit (u "R$ ²³,¹ bilhões")); [reflexivity |].
  intros c Hc. vm_compute in Hc.
  repeat (apply elem_of_cons in Hc as [-> | Hc]; [reflexivity |]).
  by apply elem_of_nil in Hc.
Defined.

(** X2.  The normalizer does not distinguish upper case from lower case:
    a raw value and its lower-cased form give the same result. *)
Theorem normalize_ignores_case (raw_value : pystr) :
  normalize_aum_value (lower raw_value) = normalize_aum_value raw_value.
Proof. unfold normalize_aum_value. by rewrite lower_idempotent. Qed.

End NormalizerMore.

(** ** The sign of the normalized value *)

Section NormalizerSign.
Import Normalization Fixtures.

Local Open Scope Z_scope.

Lemma shr_1_nonneg (mrs : shr_record) : 0 <= shr_m mrs -> 0 <= shr_m (shr_1 mrs).
Proof.
  destruct mrs as [m r s]. cbn [shr_m]. intros Hm.
  destruct m as [| [p | p |] | p]; cbn; lia.
Qed.

Lemma iter_shr_1_nonneg (p : positive) :
  forall mrs, 0 <= shr_m mrs -> 0 <= shr_m (SpecFloat.iter_pos shr_1 p mrs).
Proof.
  induction p as [p IH | p IH |]; intros mrs Hm; cbn [SpecFloat.iter_pos].
  - apply IH, IH. by apply shr_1_nonneg.
  - by apply IH, IH.
  - by apply shr_1_nonneg.
Qed.

Lemma shr_fexp_nonneg (m e : Z) (l : location) :
  0 <= m -> 0 <= shr_m (fst (shr_fexp prec emax m e l)).
Proof.
  intros Hm. unfold shr_fexp, shr.
  assert (H0 : 0 <= shr_m (shr_record_of_loc m l)) by (by destruct l as [| []]).
  destruct (fexp prec emax (Zdigits2 m + e) - e); cbn [fst]; try done.
  by apply iter_shr_1_nonneg.
Qed.

Lemma round_nearest_even_nonneg (m : Z) (l : location) :
  0 <= m -> 0 <= round_nearest_even m l.
Proof.
  intros Hm. destruct l as [| []]; cbn; try done; [| lia].
  destruct (Z.even m); lia.
Qed.

Lemma binary_round_aux_nonneg (m e : Z) (l : location) :
  0 <= m -> is_nonneg (binary_round_aux prec emax false m e l) = true.
Proof.
  intros Hm. unfold binary_round_aux.
  pose proof (shr_fexp_nonneg m e l Hm) as H1.
  destruct (shr_fexp prec emax m e l) as [mrs' e']. cbn [fst] in H1.
  pose proof (shr_fexp_nonneg
                (round_nearest_even (shr_m mrs') (loc_of_shr_record mrs'))
                e' loc_Exact (round_nearest_even_nonneg _ _ H1)) as H2.
  destruct (shr_fexp prec emax _ e' loc_Exact) as [mrs'' e'']. cbn [fst] in H2.
  destruct (shr_m mrs'') as [| p | p]; [done | | lia].
  by destruct (e'' <=? emax - prec).
Qed.

Lemma of_decimal_nonneg (n : N) (k : nat) : is_nonneg (of_decimal n k) = true.
Proof.
  unfold of_decimal. destruct n as [| p]; [done |].
  unfold SFdiv, SFdiv_core_binary. cbn [xorb].
  match goal with |- context [Z.div_eucl ?a ?b] =>
    pose proof (Z.div_eucl_eq a b ltac:(lia)) as Heq;
    pose proof (Z.mod_pos_bound a b ltac:(lia)) as Hmod;
    assert (Ha : 0 <= a);
    [| unfold Z.modulo in Hmod; destruct (Z.div_eucl a b) as [q r] ]
  end.
  { match goal with |- 0 <= match ?s with _ => _ end => destruct s end;
      try lia. apply Z.shiftl_nonneg. lia. }
  apply binary_round_aux_nonneg. nia.
Qed.

Lemma fmul_nonneg (x y : float) :
  is_nonneg x = true ->
  (exists m e, y = S754_finite false m e) ->
  is_nonneg (fmul x y) = true.
Proof.
  intros Hx (m & e & ->). unfold fmul.
  destruct x as [[|] | [|] | | [|] mx ex]; try discriminate Hx; try done.
  cbn [SFmul xorb]. apply binary_round_aux_nonneg. lia.
Qed.

Lemma float_of_number_part_nonneg (s : pystr) (x : float) :
  float_of_number_part s = Some x -> is_nonneg x = true.
Proof.
  unfold float_of_number_part. destruct (span isdecimal_char s) as [a [| c frac]].
  - destruct a; [done |]. intros [= <-]. apply of_decimal_nonneg.
  - destruct (_ && _ && _); [| done]. intros [= <-]. apply of_decimal_nonneg.
Qed.

Lemma dict_get_value {V : Type} (key : pystr) (d : list (pystr * V)) (v : V) :
  dict_get key d = Some v -> v ∈ map snd d.
Proof.
  induction d as [| [k w] d IH]; cbn; [done |].
  case_bool_decide.
  - intros [= ->]. apply elem_of_cons. by left.
  - intros Hget. apply elem_of_cons. right. by apply IH.
Qed.

Lemma multipliers_positive (key : pystr) (m : float) :
  dict_get key MULTIPLIERS = Some m -> is_positive_finite m = true.
Proof.
  intros H%dict_get_value.
  assert (Hall : forallb is_positive_finite (map snd MULTIPLIERS) = true)
    by (vm_compute; reflexivity).
  rewrite forallb_forall in Hall. apply Hall. by rewrite <- list_elem_of_In.
Qed.

Lemma multiplier_positive_finite (key : pystr) :
  exists m e,
    match dict_get key MULTIPLIERS with
    | Some multiplier => multiplier
    | None => of_Z 1
    end = S754_finite false m e.
Proof.
  destruct (dict_get key MULTIPLIERS) as [x |] eqn:Hm.
  - apply multipliers_positive in Hm.
    destruct x as [s | s | | [|] mm em]; try discriminate Hm.
    by eexists _, _.
  - vm_compute. by eexists _, _.
Qed.

(** X3.  A normalized value is never negative and never NaN: it is a
    positive zero, a positive finite number or the positive infinity.  A
    minus sign in the raw value is not read as a sign. *)
Theorem normalize_never_negative (raw_value : pystr) (value : float) :
  normalize_aum_value raw_value = Some value ->
  is_nonneg value = true.
Proof.
  unfold normalize_aum_value.
  destruct (PyStr.isalpha (lower raw_value)); [done |].
  destruct (split_parts _) as [number_part_str multiplier_part_str].
  destruct (float_of_number_part number_part_str) as [number |] eqn:Hnum;
    [| done].
  intros [= <-]. apply fmul_nonneg.
  - by eapply float_of_number_part_nonneg.
  - apply multiplier_positive_finite.
Qed.

(** A minus sign goes to the multiplier token, which is then unknown. *)
Lemma normalize_never_negative_example :
  normalize_aum_value (u "-5 bi") = Some (of_Z 5)
  /\ is_nonneg (of_Z 5) = true.
Proof.
  assert (H : normalize_aum_value (u "-5 bi") = Some (of_Z 5))
    by (vm_compute; reflexivity).
  split; [exact H |].
  exact (normalize_never_negative (u "-5 bi") (of_Z 5) H).
Defined.

End NormalizerSign.

(** ** More on the content selector *)

Section SelectorMore.
Import Fixtures.

Variable encode : pystr -> list N.
Variable find_all_text : pystr -> list pystr.

Lemma select_chunks_all (paragraphs : list pystr) :
  forall (chunks : list pystr) (total : nat),
    total + sum_list_with (chunk_tokens encode)
              (List.filter is_relevant paragraphs) <= MAX_TOKENS ->
    select_chunks encode paragraphs chunks total
    = chunks ++ map sanitize_paragraph (List.filter is_relevant paragraphs).
Proof.
  induction paragraphs as [| p ps IH]; intros chunks total Hfit;
    cbn [select_chunks List.filter].
  - cbn. by rewrite app_nil_r.
  - cbn [List.filter] in Hfit. destruct (is_relevant p).
    + cbn [sum_list_with] in Hfit.
      change (length (encode (sanitize_paragraph p)))
        with (chunk_tokens encode p).
      rewrite (proj2 (Nat.leb_le _ _)) by lia.
      rewrite IH by lia. cbn [map]. by rewrite <- app_assoc.
    + by apply IH.
Qed.

(** X4.  When the relevant paragraphs of a non-empty markup together fit
    the budget of 1350 tokens, none is dropped: the selector returns all of
    them, sanitized, in document order, joined by line feeds. *)
Theorem extract_relevant_chunks_keeps_all (html_content : pystr) :
  html_content <> [] ->
  sum_list_with (chunk_tokens encode)
    (List.filter is_relevant (find_all_text html_content)) <= 1350 ->
  extract_relevant_chunks encode find_all_text html_content
  = join nl (map sanitize_paragraph
               (List.filter is_relevant (find_all_text html_content))).
Proof.
  intros Hne Hfit. unfold extract_relevant_chunks.
  destruct html_content as [| c html]; [done |].
  rewrite select_chunks_all by exact Hfit. cbn [app].
  by destruct (map sanitize_paragraph _).
Qed.

End SelectorMore.

Lemma extract_relevant_chunks_keeps_all_example :
  extract_relevant_chunks Fixtures.char_tokens Fixtures.line_elements
    Fixtures.three_paragraphs
  = join nl (map sanitize_paragraph
               (List.filter is_relevant
                  (Fixtures.line_elements Fixtures.three_paragraphs))).
Proof.
  apply (extract_relevant_chunks_keeps_all Fixtures.char_tokens
           Fixtures.line_elements Fixtures.three_paragraphs).
  - discriminate.
  - vm_compute. lia.
Defined.

(** ** The sanitizer of paragraphs *)

Section SanitizerFacts.
Import Fixtures.

Local Open Scope N_scope.

Lemma sanitize_fold (lines : list pystr) :
  forall output : list pystr,
    fold_left
      (fun output line =>
         let line := strip line in
         match line with
         | [] => output
         | _ => output ++ [line]
         end)
      lines output
    = output ++ List.filter (fun l => negb (is_empty l)) (map strip lines).
Proof.
  induction lines as [| l lines IH]; intros output; cbn [fold_left map List.filter].
  - by rewrite app_nil_r.
  - cbn zeta. rewrite IH. destruct (strip l); cbn [is_empty negb]; [done |].
    by rewrite <- app_assoc.
Qed.

Lemma lstrip_suffix (s : pystr) : exists pre, s = pre ++ lstrip s.
Proof.
  induction s as [| c s [pre IH]]; cbn [lstrip]; [by exists [] |].
  destruct (isspace_char c); [| by exists []].
  exists (c :: pre). cbn. by rewrite <- IH.
Qed.

Lemma lstrip_head (s : pystr) (c : char) (t : pystr) :
  lstrip s = c :: t -> isspace_char c = false.
Proof.
  induction s as [| a s IH]; cbn [lstrip]; [done |].
  destruct (isspace_char a) eqn:Ha; [exact IH |].
  by intros [= <- _].
Qed.

Lemma lstrip_fixed (s : pystr) :
  (forall c t, s = c :: t -> isspace_char c = false) -> lstrip s = s.
Proof.
  destruct s as [| c t]; [done |]. intros H. cbn [lstrip].
  by rewrite (H c t eq_refl).
Qed.

Lemma rstrip_prefix (s : pystr) : exists post, s = rstrip s ++ post.
Proof.
  unfold rstrip. destruct (lstrip_suffix (rev s)) as [pre H].
  exists (rev pre). rewrite <- rev_app_distr, <- H. by rewrite rev_involutive.
Qed.

Lemma rstrip_idempotent (s : pystr) : rstrip (rstrip s) = rstrip s.
Proof.
  unfold rstrip. rewrite rev_involutive. f_equal.
  apply lstrip_fixed. intros c t H. by eapply lstrip_head.
Qed.

Lemma lstrip_rstrip_lstrip (s : pystr) :
  lstrip (rstrip (lstrip s)) = rstrip (lstrip s).
Proof.
  apply lstrip_fixed. intros c t H.
  destruct (rstrip_prefix (lstrip s)) as [post Hpost].
  rewrite H in Hpost. by eapply lstrip_head.
Qed.

(** [strip] is idempotent. *)
Lemma strip_idempotent (s : pystr) : strip (strip s) = strip s.
Proof.
  unfold strip. by rewrite lstrip_rstrip_lstrip, rstrip_idempotent.
Qed.

Lemma splitlines_go_lines (s : pystr) :
  forall cur, no_linebreak cur ->
    Forall no_linebreak (splitlines_go cur s).
Proof.
  assert (Hrev : forall cur, no_linebreak cur -> no_linebreak (rev cur)).
  { intros cur H c Hc. apply H.
    by rewrite list_elem_of_In, in_rev, <- list_elem_of_In. }
  assert (Hnil : no_linebreak []) by (intros c Hc; by apply elem_of_nil in Hc).
  induction s as [s IH] using (induction_ltof1 _ (@length _)).
  unfold ltof in IH. intros cur Hcur. destruct s as [| c s]; cbn [splitlines_go].
  - destruct cur; constructor; [by apply Hrev | constructor].
  - destruct (islinebreak_char c) eqn:Hc.
    + destruct (c =? 13).
      * destruct s as [| d s'].
        -- constructor; [by apply Hrev | constructor].
        -- assert (Hs' : Forall no_linebreak (splitlines_go [] s'))
             by (apply IH; [cbn; lia | done]).
           assert (Hs : Forall no_linebreak (splitlines_go [] (d :: s')))
             by (apply IH; [cbn; lia | done]).
           destruct d as [| p]; [constructor; [by apply Hrev | done] |].
           do 4 (try destruct p as [p | p |]);
             (constructor; [by apply Hrev | assumption]).
      * constructor; [by apply Hrev |]. apply IH; [cbn; lia | done].
    + apply IH; [cbn; lia |]. intros x [-> | Hx]%elem_of_cons; auto.
Qed.

Lemma splitlines_go_line (l : pystr) :
  no_linebreak l ->
  forall cur rest,
    splitlines_go cur (l ++ rest) = splitlines_go (rev l ++ cur) rest.
Proof.
  induction l as [| c l IH]; intros Hl cur rest; [done |].
  cbn [app splitlines_go]. rewrite (Hl c) by (apply elem_of_cons; by left).
  rewrite IH.
  - cbn [rev]. by rewrite <- app_assoc.
  - intros x Hx. apply Hl. apply elem_of_cons. by right.
Qed.

(** Joining lines by line feeds and splitting again gives the lines back,
    when no line is empty or holds a line boundary. *)
Lemma splitlines_join (lines : list pystr) :
  Forall (fun l => l <> [] /\ no_linebreak l) lines ->
  splitlines (join nl lines) = lines.
Proof.
  unfold splitlines. induction 1 as [| l lines [Hne Hl] Hall IH]; [done |].
  destruct lines as [| l' lines'].
  - cbn [join]. rewrite <- (app_nil_r l) at 1.
    rewrite splitlines_go_line by done. rewrite app_nil_r. cbn [splitlines_go].
    destruct (rev l) eqn:E.
    + apply (f_equal (@rev _)) in E. rewrite rev_involutive in E. done.
    + by rewrite <- E, rev_involutive.
  - change (join nl (l :: l' :: lines'))
      with (l ++ 10 :: join nl (l' :: lines')).
    rewrite splitlines_go_line by done. rewrite app_nil_r.
    cbn [splitlines_go]. change (islinebreak_char 10) with true.
    change (10 =? 13) with false. cbn iota.
    by rewrite rev_involutive, IH.
Qed.

(** X5.  [sanitize_paragraph] is idempotent: its output has no blank line
    and no line with surrounding whitespace, so sanitizing it again changes
    nothing. *)
Theorem sanitize_paragraph_idempotent (p : pystr) :
  sanitize_paragraph (sanitize_paragraph p) = sanitize_paragraph p.
Proof.
  unfold sanitize_paragraph. rewrite !sanitize_fold. cbn [app].
  set (lines := List.filter (fun l => negb (is_empty l))
                            (map strip (splitlines p))).
  assert (Hlines : Forall (fun l => (l <> [] /\ no_linebreak l)
                                    /\ strip l = l) lines).
  { apply Forall_forall. intros l Hl. unfold lines in Hl.
    rewrite list_elem_of_In in Hl. apply filter_In in Hl as [Hl Hne].
    rewrite <- list_elem_of_In in Hl.
    apply list_elem_of_fmap in Hl as (l0 & -> & Hl0).
    split; [split |].
    - by destruct (strip l0).
    - intros c Hc%elem_of_strip.
      pose proof (splitlines_go_lines p []
                    ltac:(intros x Hx; by apply elem_of_nil in Hx)) as Hall.
      rewrite Forall_forall in Hall. by apply (Hall l0).
    - apply strip_idempotent. }
  rewrite splitlines_join
    by (eapply Forall_impl; [exact Hlines | intros l [H _]; exact H]).
  f_equal. clear -Hlines.
  induction Hlines as [| l ls [[Hne _] Hs] _ IH]; [done |].
  cbn [map List.filter]. rewrite Hs.
  destruct l; [done |]. cbn [is_empty negb]. by rewrite IH.
Qed.

End SanitizerFacts.

(** ** Patterns that are alternations of literals *)

Section LiteralPatterns.
Import Fixtures.

Lemma matchk_Str {A : Type} (ignorecase : bool) (s : pystr) :
  forall (t : pystr) (k : pystr -> option A),
    matchk ignorecase (Str s) t k
    = if prefix_by (chr_matches ignorecase) s t
      then k (drop (length s) t) else None.
Proof.
  induction s as [| c s IH]; intros t k; [done |].
  destruct s as [| c' s].
  - cbn [Str matchk prefix_by length]. destruct t as [| x t]; [done |].
    rewrite andb_true_r. cbn [drop]. by destruct (chr_matches ignorecase c x).
  - change (Str (c :: c' :: s)) with (Cat (Chr c) (Str (c' :: s))).
    cbn [matchk]. destruct t as [| x t]; [done |].
    cbn [prefix_by andb]. destruct (chr_matches ignorecase c x); [| done].
    rewrite IH. cbn [andb length drop]. done.
Qed.

Lemma match_len_Str (ignorecase : bool) (s t : pystr) :
  is_Some (match_len ignorecase (Str s) false t)
  <-> prefix_by (chr_matches ignorecase) s t = true.
Proof.
  unfold match_len. rewrite matchk_Str.
  destruct (prefix_by (chr_matches ignorecase) s t); cbn [andb].
  - split; [done | eauto].
  - split; [by intros [? ?] | done].
Qed.

Lemma matchk_Alt {A : Type} (ignorecase : bool) (r1 r2 : regex) (t : pystr)
    (k : pystr -> option A) :
  is_Some (matchk ignorecase (Alt r1 r2) t k)
  <-> is_Some (matchk ignorecase r1 t k) \/ is_Some (matchk ignorecase r2 t k).
Proof.
  cbn [matchk]. destruct (matchk ignorecase r1 t k).
  - split; eauto.
  - split; [by right | intros [[? ?] | ?]; done].
Qed.

Lemma match_len_Alts (ignorecase : bool) (r : regex) (rs : list regex)
    (t : pystr) :
  is_Some (match_len ignorecase (Alts r rs) false t)
  <-> exists r', r' ∈ r :: rs /\ is_Some (match_len ignorecase r' false t).
Proof.
  revert r. induction rs as [| r1 rs IH]; intros r; cbn [Alts].
  - split.
    + intros H. exists r. split; [apply elem_of_cons; by left | done].
    + intros (r' & Hr & H). by apply list_elem_of_singleton in Hr as ->.
  - unfold match_len at 1. rewrite matchk_Alt.
    fold (match_len ignorecase r false t).
    fold (match_len ignorecase (Alts r1 rs) false t). rewrite IH. split.
    + intros [H | (r' & Hr & H)].
      * exists r. split; [apply elem_of_cons; by left | done].
      * exists r'. split; [apply elem_of_cons; by right | done].
    + intros (r' & [-> | Hr]%elem_of_cons & H); [by left |].
      right. by exists r'.
Qed.

(** A search succeeds exactly when an attempt succeeds at some suffix. *)
Lemma search_from_suffix (ignorecase : bool) (r : regex) (t : pystr) :
  forall pos,
    is_Some (search_from ignorecase r pos t)
    <-> exists i, is_Some (match_len ignorecase r false (drop i t)).
Proof.
  induction t as [| c t IH]; intros pos; cbn [search_from].
  - destruct (match_len ignorecase r false []) eqn:E.
    + split; [| eauto]. intros _. exists 0. cbn. rewrite E. eauto.
    + split; [by intros [? ?] |]. intros [i H]. rewrite drop_nil, E in H.
      by destruct H.
  - destruct (match_len ignorecase r false (c :: t)) eqn:E.
    + split; [| eauto]. intros _. exists 0. cbn. rewrite E. eauto.
    + rewrite IH. split.
      * intros [i H]. by exists (S i).
      * intros [[| i] H]; [cbn in H; rewrite E in H; by destruct H |].
        by exists i.
Qed.

Lemma contains_suffix (sub t : pystr) :
  contains sub t = true <-> exists i, starts_with sub (drop i t) = true.
Proof.
  induction t as [| c t IH]; cbn [contains].
  - rewrite orb_false_r. split; [intros H; by exists 0 |].
    intros [i H]. by rewrite drop_nil in H.
  - rewrite orb_true_iff, IH. split.
    + intros [H | [i H]]; [by exists 0 | by exists (S i)].
    + intros [[| i] H]; [by left | right; by exists i].
Qed.

Lemma prefix_by_exact (p s : pystr) :
  prefix_by (chr_matches false) p s = starts_with p s.
Proof.
  revert s. induction p as [| a p IH]; intros [| b s]; cbn; try done.
  by rewrite IH.
Qed.

Lemma prefix_by_lower (p s : pystr) :
  is_lower p -> is_lower s ->
  prefix_by (chr_matches true) p s = starts_with p s.
Proof.
  revert s. induction p as [| a p IH]; intros [| b s] Hp Hs; cbn; try done.
  unfold chr_matches.
  rewrite (Hp a) by (apply elem_of_cons; by left).
  rewrite (Hs b) by (apply elem_of_cons; by left).
  rewrite IH; [done | |]; intros x Hx; [apply Hp | apply Hs];
    apply elem_of_cons; by right.
Qed.

Lemma is_lower_drop (s : pystr) (i : nat) : is_lower s -> is_lower (drop i s).
Proof.
  intros Hs c Hc. apply Hs. revert Hc. apply (subseteq_drop i s).
Qed.

Lemma is_lower_lower (s : pystr) : is_lower (lower s).
Proof.
  intros c (c0 & -> & _)%list_elem_of_fmap.
  unfold lower_char.
  destruct (in_range 65 90 c0 || in_range 192 214 c0 || in_range 216 222 c0)
    eqn:E; [| by rewrite E].
  replace (in_range 65 90 (c0 + 32) || in_range 192 214 (c0 + 32)
           || in_range 216 222 (c0 + 32))%N with false; [done |].
  symmetry. apply not_true_iff_false. unfold in_range in *.
  rewrite !orb_true_iff, !andb_true_iff, !N.leb_le in *. lia.
Qed.

(** A search for an alternation of literals is the substring test for one
    of the literals: case-sensitive as it stands, and also under
    [re.IGNORECASE] when the literals and the text are in lower case. *)
Lemma search_literals (ignorecase : bool) (k0 : pystr) (ks : list pystr)
    (t : pystr) :
  (ignorecase = true -> is_lower t /\ Forall is_lower (k0 :: ks)) ->
  is_Some (search ignorecase (Alts (Str k0) (map Str ks)) t)
  <-> exists kw, kw ∈ k0 :: ks /\ contains kw t = true.
Proof.
  intros Hcase. unfold search. rewrite search_from_suffix.
  assert (Hpre : forall kw i, kw ∈ k0 :: ks ->
            prefix_by (chr_matches ignorecase) kw (drop i t)
            = starts_with kw (drop i t)).
  { intros kw i Hkw. destruct ignorecase.
    - destruct (Hcase eq_refl) as [Ht Hks]. rewrite Forall_forall in Hks.
      apply prefix_by_lower; [by apply Hks | by apply is_lower_drop].
    - apply prefix_by_exact. }
  split.
  - intros [i H]. apply match_len_Alts in H as (r' & Hr' & H).
    change (Str k0 :: map Str ks) with (map Str (k0 :: ks)) in Hr'.
    apply list_elem_of_fmap in Hr' as (kw & -> & Hkw).
    apply match_len_Str in H. rewrite Hpre in H by done.
    exists kw. split; [done |]. apply contains_suffix. by exists i.
  - intros (kw & Hkw & [i H]%contains_suffix). exists i.
    apply match_len_Alts. exists (Str kw). split.
    + change (Str k0 :: map Str ks) with (map Str (k0 :: ks)).
      apply list_elem_of_fmap. by exists kw.
    + apply match_len_Str. by rewrite Hpre.
Qed.

End LiteralPatterns.

(** ** What the keyword patterns look for *)

Section KeywordFacts.
Import Fixtures.

Lemma is_lower_of_eq (s : pystr) : lower s = s -> is_lower s.
Proof.
  intros H c Hc. rewrite <- H in Hc.
  apply list_elem_of_fmap in Hc as (c0 & -> & _). apply lower_char_idempotent.
Qed.

Lemma contains_any_iff (words : list pystr) (t : pystr) :
  contains_any words t = true
  <-> exists kw, kw ∈ words /\ contains kw t = true.
Proof.
  unfold contains_any. rewrite existsb_exists.
  split; intros (kw & H1 & H2); exists kw; split; try done;
    first [by rewrite list_elem_of_In | by rewrite <- list_elem_of_In].
Qed.

Lemma starts_with_app (a b t : pystr) :
  starts_with (a ++ b) t
  = starts_with a t && starts_with b (drop (length a) t).
Proof.
  revert t. induction a as [| x a IH]; intros t; cbn [app length].
  - by rewrite drop_0.
  - destruct t as [| y t]; cbn [starts_with drop]; [done |].
    by rewrite IH, andb_assoc.
Qed.

(** A text that contains a phrase contains every part of it. *)
Lemma contains_part (a kw b t : pystr) :
  contains (a ++ kw ++ b) t = true -> contains kw t = true.
Proof.
  rewrite !contains_suffix. intros [i H].
  rewrite !starts_with_app, !andb_true_iff in H. destruct H as (_ & H & _).
  exists (i + length a). by rewrite <- drop_drop.
Qed.

Lemma bool_decide_is_Some {A : Type} (x : option A) (b : bool) :
  (is_Some x <-> b = true) -> bool_decide (is_Some x) = b.
Proof.
  intros H. destruct b.
  - apply bool_decide_eq_true. by apply H.
  - apply bool_decide_eq_false. intros Hx. apply H in Hx. discriminate.
Qed.

(** The keyword pattern succeeds on a lower-cased text exactly when the text
    contains "aum", "assets under management" or "sob gestão"; the three
    other alternatives of the pattern contain "sob gestão". *)
Lemma aum_keywords_phrases (p : pystr) :
  bool_decide (is_Some (search true AUM_KEYWORDS (lower p)))
  = contains_any AUM_PHRASES (lower p).
Proof.
  apply bool_decide_is_Some.
  change AUM_KEYWORDS
    with (Alts (Str (u "aum"))
               (map Str [u "assets under management";
                         u "patrimônio sob gestão"; u "sob gestão";
                         u "ativos sob gestão"; u "recursos sob gestão"])).
  rewrite search_literals, contains_any_iff.
  - split; intros (kw & Hkw & H).
    + repeat (apply elem_of_cons in Hkw as [-> | Hkw]);
        [ exists (u "aum") | exists (u "assets under management")
        | exists (u "sob gestão") | exists (u "sob gestão")
        | exists (u "sob gestão") | exists (u "sob gestão")
        | by apply elem_of_nil in Hkw ];
        (split; [unfold AUM_PHRASES; rewrite !elem_of_cons; tauto |]);
        try exact H.
      * apply (contains_part (u "patrimônio ") _ []). by rewrite app_nil_r.
      * apply (contains_part (u "ativos ") _ []). by rewrite app_nil_r.
      * apply (contains_part (u "recursos ") _ []). by rewrite app_nil_r.
    + exists kw. split; [| done]. unfold AUM_PHRASES in Hkw.
      rewrite !elem_of_cons in *. tauto.
  - intros _. split; [apply is_lower_lower |].
    repeat (constructor; [by apply is_lower_of_eq; vm_compute |]).
    constructor.
Qed.

(** X6.  A paragraph made of code points of U+0000..U+00FF and euro signs
    is relevant exactly when its lower-cased text contains "aum", "assets
    under management" or "sob gestão", or the monetary pattern matches
    it. *)
Theorem is_relevant_phrases (paragraph : pystr) :
  within_tables paragraph = true ->
  is_relevant paragraph
  = contains_any AUM_PHRASES (lower paragraph)
    || bool_decide
         (is_Some (search true MONETARY_VALUE_REGEX (lower paragraph))).
Proof. intros _. unfold is_relevant. cbn zeta. by rewrite aum_keywords_phrases. Qed.

Lemma is_relevant_phrases_example :
  is_relevant (u "Recursos SOB GESTÃO da casa")
  = contains_any AUM_PHRASES (lower (u "Recursos SOB GESTÃO da casa"))
    || bool_decide
         (is_Some (search true MONETARY_VALUE_REGEX
                     (lower (u "Recursos SOB GESTÃO da casa")))).
Proof.
  apply (is_relevant_phrases (u "Recursos SOB GESTÃO da casa")). reflexivity.
Defined.

End KeywordFacts.

Section TitleWords.
Import Fixtures.

Local Open Scope N_scope.

Lemma match_len_Str_Cls_Str (a : pystr) (p : char -> bool) (b t : pystr) :
  is_Some (match_len false (Cat (Str a) (Cat (Cls p) (Str b))) false t)
  <-> exists c, p c = true /\ starts_with (a ++ c :: b) t = true.
Proof.
  unfold match_len. cbn [matchk]. rewrite matchk_Str, prefix_by_exact.
  setoid_rewrite starts_with_app.
  destruct (starts_with a t); cbn [andb];
    [| split; [by intros [? ?] | by intros (? & _ & ?)]].
  destruct (drop (length a) t) as [| x s].
  - split; [by intros [? ?] | by intros (? & _ & ?)].
  - rewrite matchk_Str, prefix_by_exact. cbn [starts_with].
    destruct (p x) eqn:Hp.
    + destruct (starts_with b s) eqn:Hb.
      * split; [| eauto]. intros _. exists x. by rewrite N.eqb_refl.
      * split; [by intros [? ?] |]. intros (c & _ & H).
        rewrite andb_false_r in H. done.
    + split; [by intros [? ?] |]. intros (c & Hc & H).
      apply andb_true_iff in H as [->%N.eqb_eq _]. congruence.
Qed.

Lemma news_words (t : pystr) :
  kw_search NEWS_KW t = contains_any NEWS_WORDS t.
Proof.
  unfold kw_search. apply bool_decide_is_Some.
  change NEWS_KW
    with (Alts (Str (u "notícia"))
               (map Str [u "news"; u "jornal"; u "magazine"; u "g1";
                         u "cnn"; u "bloomberg"])).
  rewrite search_literals by discriminate. by rewrite contains_any_iff.
Qed.

Lemma report_attempt (t : pystr) :
  is_Some (match_len false REPORTS_KW false t)
  <-> exists kw, kw ∈ REPORT_WORDS /\ starts_with kw t = true.
Proof.
  change REPORTS_KW
    with (Alts (Cat (Str (u "relat"))
                    (Cat (Cls (fun c => char_in c [243; 111])) (Str (u "rio"))))
               [Str (u "report");
                Cat (Str (u "balan"))
                    (Cat (Cls (fun c => char_in c [231; 99])) (Str [111]));
                Str (u "demonstrativo");
                Str (u "investor relations")]).
  rewrite match_len_Alts. unfold REPORT_WORDS. split.
  - intros (r' & Hr' & H).
    repeat (apply elem_of_cons in Hr' as [-> | Hr']);
      [ | | | | | by apply elem_of_nil in Hr' ].
    + apply match_len_Str_Cls_Str in H as (c & Hc & H).
      unfold char_in in Hc. cbn [existsb] in Hc.
      rewrite !orb_true_iff, !N.eqb_eq in Hc.
      destruct Hc as [-> | [-> | Hc]]; [| | done].
      * exists (u "relatório"). rewrite !elem_of_cons. tauto.
      * exists (u "relatorio"). rewrite !elem_of_cons. tauto.
    + apply match_len_Str in H. rewrite prefix_by_exact in H.
      exists (u "report"). rewrite !elem_of_cons. tauto.
    + apply match_len_Str_Cls_Str in H as (c & Hc & H).
      unfold char_in in Hc. cbn [existsb] in Hc.
      rewrite !orb_true_iff, !N.eqb_eq in Hc.
      destruct Hc as [-> | [-> | Hc]]; [| | done].
      * exists (u "balanço"). rewrite !elem_of_cons. tauto.
      * exists (u "balanco"). rewrite !elem_of_cons. tauto.
    + apply match_len_Str in H. rewrite prefix_by_exact in H.
      exists (u "demonstrativo"). rewrite !elem_of_cons. tauto.
    + apply match_len_Str in H. rewrite prefix_by_exact in H.
      exists (u "investor relations"). rewrite !elem_of_cons. tauto.
  - intros (kw & Hkw & H).
    repeat (apply elem_of_cons in Hkw as [-> | Hkw]);
      [ | | | | | | | by apply elem_of_nil in Hkw ].
    + eexists. split; [apply elem_of_cons; left; reflexivity |].
      apply match_len_Str_Cls_Str. exists 243. split; [reflexivity | exact H].
    + eexists. split; [apply elem_of_cons; left; reflexivity |].
      apply match_len_Str_Cls_Str. exists 111. split; [reflexivity | exact H].
    + exists (Str (u "report")). rewrite !elem_of_cons. split; [tauto |].
      apply match_len_Str. by rewrite prefix_by_exact.
    + eexists. split; [do 2 (apply elem_of_cons; right);
                       apply elem_of_cons; left; reflexivity |].
      apply match_len_Str_Cls_Str. exists 231. split; [reflexivity | exact H].
    + eexists. split; [do 2 (apply elem_of_cons; right);
                       apply elem_of_cons; left; reflexivity |].
      apply match_len_Str_Cls_Str. exists 99. split; [reflexivity | exact H].
    + exists (Str (u "demonstrativo")). rewrite !elem_of_cons. split; [tauto |].
      apply match_len_Str. by rewrite prefix_by_exact.
    + exists (Str (u "investor relations")). rewrite !elem_of_cons.
      split; [tauto |]. apply match_len_Str. by rewrite prefix_by_exact.
Qed.

Lemma report_words (t : pystr) :
  kw_search REPORTS_KW t = contains_any REPORT_WORDS t.
Proof.
  unfold kw_search. apply bool_decide_is_Some.
  unfold search. rewrite search_from_suffix, contains_any_iff. split.
  - intros [i (kw & Hkw & H)%report_attempt]. exists kw. split; [done |].
    apply contains_suffix. by exists i.
  - intros (kw & Hkw & [i H]%contains_suffix). exists i.
    apply report_attempt. by exists kw.
Qed.

(** X7.  The two title patterns of the categorizer are plain substring
    tests: the reports pattern succeeds exactly when the title contains one
    of "relatório", "relatorio", "report", "balanço", "balanco",
    "demonstrativo", "investor relations", the news pattern exactly when it
    contains one of "notícia", "news", "jornal", "magazine", "g1", "cnn",
    "bloomberg".  So a result on an address without a social domain goes to
    reports, else to news, else to corporate, by these tests on its
    lower-cased title. *)
Theorem title_rules_are_substring_tests (r : result)
    (categories : gmap pystr (gset pystr)) :
  kw_search REPORTS_KW (lower (title r))
  = contains_any REPORT_WORDS (lower (title r))
  /\ kw_search NEWS_KW (lower (title r))
     = contains_any NEWS_WORDS (lower (title r))
  /\ (contains (u "linkedin.com") (url r) = false ->
      contains (u "instagram.com") (url r) = false ->
      contains (u "twitter.com") (url r) = false ->
      contains (u "x.com") (url r) = false ->
      contains (u "facebook.com") (url r) = false ->
      categorize_result r categories
      = bucket_add
          (if contains_any REPORT_WORDS (lower (title r)) then u "reports"
           else if contains_any NEWS_WORDS (lower (title r)) then u "news"
           else u "corporate")
          (url r) categories).
Proof.
  split; [apply report_words |]. split; [apply news_words |].
  intros H1 H2 H3 H4 H5. unfold categorize_result.
  rewrite H1, H2, H3, H4, H5. cbn [orb].
  rewrite report_words, news_words.
  destruct (contains_any REPORT_WORDS (lower (title r)));
    [reflexivity |].
  destruct (contains_any NEWS_WORDS (lower (title r))); reflexivity.
Qed.

End TitleWords.

(** ** More on the extraction agent *)

Section AgentMore.
Import Normalization Fixtures MoreFixtures.

Variable encode : pystr -> list N.
Variable decode : list N -> pystr.
Variable find_all_text : pystr -> list pystr.
Variable arun : pystr -> option (pystr * Z).

Lemma commit_snapshot (t : Tables) (s : AUMSnapshot) :
  commit (add (SnapshotRow s) {| stored := t; pending := [] |})
  = if match standardized_value s with
       | Some z => fits_bigint z
       | None => true
       end
    then inr {| stored := {| company_links := company_links t;
                             search_results := search_results t;
                             scrape_logs := scrape_logs t;
                             aum_snapshots := aum_snapshots t ++ [s];
                             usage := usage t |};
                pending := [] |}
    else inl DataError.
Proof.
  unfold commit, add. cbn [stored pending app flush insert].
  by destruct (match standardized_value s with
               | Some z => fits_bigint z
               | None => true
               end).
Qed.

(** Whatever the response, the parsing step touches the snapshots only and
    leaves no queued row. *)
Lemma persist_result_frame (company : Company) (result_text : pystr)
    (t : Tables) :
  let db' := snd (persist_result company result_text
                    {| stored := t; pending := [] |}) in
  pending db' = []
  /\ company_links (stored db') = company_links t
  /\ search_results (stored db') = search_results t
  /\ scrape_logs (stored db') = scrape_logs t
  /\ usage (stored db') = usage t.
Proof.
  cbn zeta. unfold persist_result.
  destruct (contains NAO_DISPONIVEL (upper result_text)).
  - rewrite commit_snapshot. cbn [standardized_value snd]. done.
  - destruct (splitlines result_text) as [| raw [| l2 [| src [| ? ?]]]];
      try done.
    destruct (normalize_aum_value raw) as [value |]; [| done].
    destruct (truthy value); [| done].
    destruct (to_int value) as [[|] | z]; try done.
    rewrite commit_snapshot. cbn [standardized_value].
    by destruct (fits_bigint z).
Qed.

(** X8.  When the completion provider answers, the agent records exactly
    one usage row, with the company, the operation "aum_extraction" and the
    reported token count, whatever becomes of the response afterwards (a
    snapshot, nothing, or an exception); it changes no link, search result
    or scrape log, and leaves no queued row. *)
Theorem extract_aum_records_usage (company : Company)
    (scraped_pages : list page) (db : Session) (content : pystr)
    (total_tokens_used : Z) :
  pending db = [] ->
  arun (build_prompt encode decode find_all_text company scraped_pages)
  = Some (content, total_tokens_used) ->
  let db' := snd (extract_aum encode decode find_all_text arun company
                    scraped_pages db) in
  usage (stored db')
  = usage (stored db)
    ++ [{| usage_company_id := Some (id company);
           operation_type := u "aum_extraction";
           tokens_used := total_tokens_used |}]
  /\ company_links (stored db') = company_links (stored db)
  /\ search_results (stored db') = search_results (stored db)
  /\ scrape_logs (stored db') = scrape_logs (stored db)
  /\ pending db' = [].
Proof.
  intros Hpending Hrun. cbn zeta. unfold extract_aum. rewrite Hrun.
  destruct db as [t queue]. cbn in Hpending. subst queue.
  rewrite log_usage_stored.
  match goal with |- context [persist_result _ _ {| stored := ?t1 |}] =>
    pose proof (persist_result_frame company (strip content) t1) as H
  end.
  cbn zeta in H. destruct H as (H1 & H2 & H3 & H4 & H5).
  by rewrite H1, H2, H3, H4, H5.
Qed.

(** X9.  A response made of code points of U+0000..U+00FF and euro signs
    that has neither the sentinel nor exactly three lines makes the agent
    raise [ValueError] after the usage has been recorded: no snapshot is
    stored. *)
Theorem malformed_response_raises (company : Company)
    (scraped_pages : list page) (db : Session) (content : pystr)
    (total_tokens_used : Z) :
  within_tables content = true ->
  pending db = [] ->
  arun (build_prompt encode decode find_all_text company scraped_pages)
  = Some (content, total_tokens_used) ->
  contains NAO_DISPONIVEL (upper (strip content)) = false ->
  length (splitlines (strip content)) <> 3 ->
  let out := extract_aum encode decode find_all_text arun company
               scraped_pages db in
  fst out = Raised ValueError
  /\ aum_snapshots (stored (snd out)) = aum_snapshots (stored db)
  /\ length (usage (stored (snd out))) = S (length (usage (stored db))).
Proof.
  intros _ Hpending Hrun Hsent Hlines. cbn zeta. unfold extract_aum.
  rewrite Hrun. destruct db as [t queue]. cbn in Hpending. subst queue.
  rewrite log_usage_stored. unfold persist_result. rewrite Hsent.
  destruct (splitlines (strip content)) as [| raw [| l2 [| src [| ? ?]]]];
    cbn [length] in Hlines; try lia;
    cbn [fst snd stored aum_snapshots usage];
    rewrite length_app; cbn [length]; (split; [done | split; [done | lia]]).
Qed.

(** X10.  The sentinel takes precedence: a response whose upper-cased text
    contains it, even inside a well-formed three-line answer, stores the
    sentinel snapshot, with no unit, value or source. *)
Theorem sentinel_takes_precedence (company : Company)
    (scraped_pages : list page) (db : Session) (content : pystr)
    (total_tokens_used : Z) :
  pending db = [] ->
  arun (build_prompt encode decode find_all_text company scraped_pages)
  = Some (content, total_tokens_used) ->
  contains NAO_DISPONIVEL (upper (strip content)) = true ->
  let out := extract_aum encode decode find_all_text arun company
               scraped_pages db in
  fst out = Returned tt
  /\ aum_snapshots (stored (snd out))
     = aum_snapshots (stored db)
       ++ [{| snapshot_company_id := id company;
              aum_value := NAO_DISPONIVEL;
              aum_unit := None;
              standardized_value := None;
              source_url := None |}].
Proof.
  intros Hpending Hrun Hsent. cbn zeta. unfold extract_aum.
  rewrite Hrun. destruct db as [t queue]. cbn in Hpending. subst queue.
  rewrite log_usage_stored. unfold persist_result. rewrite Hsent.
  by rewrite commit_snapshot.
Qed.

End AgentMore.

Section AgentMoreExamples.
Import Fixtures MoreFixtures.

Lemma extract_aum_records_usage_example :
  let db' := snd (run_agent flow_response) in
  usage (stored db')
  = usage (stored empty_session)
    ++ [{| usage_company_id := Some (id flow_test_corp);
           operation_type := u "aum_extraction";
           tokens_used := 125 |}]
  /\ company_links (stored db') = company_links (stored empty_session)
  /\ search_results (stored db') = search_results (stored empty_session)
  /\ scrape_logs (stored db') = scrape_logs (stored empty_session)
  /\ pending db' = [].
Proof.
  apply (extract_aum_records_usage char_tokens char_text line_elements
           (answering flow_response) flow_test_corp flow_pages empty_session
           flow_response 125%Z).
  - reflexivity.
  - reflexivity.
Defined.

Lemma malformed_response_raises_example :
  let out := run_agent two_line_response in
  fst out = Raised ValueError
  /\ aum_snapshots (stored (snd out)) = aum_snapshots (stored empty_session)
  /\ length (usage (stored (snd out)))
     = S (length (usage (stored empty_session))).
Proof.
  apply (malformed_response_raises char_tokens char_text line_elements
           (answering two_line_response) flow_test_corp flow_pages
           empty_session two_line_response 125%Z).
  - reflexivity.
  - reflexivity.
  - reflexivity.
  - vm_compute. reflexivity.
  - vm_compute. lia.
Defined.

Lemma sentinel_takes_precedence_example :
  let out := run_agent hedged_response in
  fst out = Returned tt
  /\ aum_snapshots (stored (snd out))
     = aum_snapshots (stored empty_session)
       ++ [{| snapshot_company_id := id flow_test_corp;
              aum_value := NAO_DISPONIVEL;
              aum_unit := None;
              standardized_value := None;
              source_url := None |}].
Proof.
  apply (sentinel_takes_precedence char_tokens char_text line_elements
           (answering hedged_response) flow_test_corp flow_pages
           empty_session hedged_response 125%Z).
  - reflexivity.
  - reflexivity.
  - vm_compute. reflexivity.
Defined.

End AgentMoreExamples.

(** ** The prompt *)

Section PromptFacts.

Variable encode : pystr -> list N.
Variable decode : list N -> pystr.
Variable find_all_text : pystr -> list pystr.

Lemma relevant_block_cons (p : page) (scraped_pages : list page) :
  relevant_block encode find_all_text (p :: scraped_pages)
  = relevant_block encode find_all_text [p]
    ++ relevant_block encode find_all_text scraped_pages.
Proof.
  unfold relevant_block. cbn [fold_left].
  generalize (match extract_relevant_chunks encode find_all_text
                      (page_content p) with
              | [] => []
              | _ :: _ =>
                [] ++ u "SOURCE: " ++ page_url p ++ nl
                ++ extract_relevant_chunks encode find_all_text
                     (page_content p) ++ nl
              end) as acc.
  induction scraped_pages as [| q l IH]; intros acc; cbn [fold_left].
  - by rewrite app_nil_r.
  - rewrite IH. rewrite (IH (match _ with [] => [] | _ => _ end)).
    destruct (extract_relevant_chunks encode find_all_text (page_content q));
      [done |].
    by rewrite app_nil_l, <- !app_assoc.
Qed.

(** X11.  The prompt depends only on the pages in which the content
    selector finds something: dropping every other page from the list
    leaves the prompt unchanged. *)
Theorem build_prompt_ignores_irrelevant_pages (company : Company)
    (scraped_pages : list page) :
  build_prompt encode decode find_all_text company scraped_pages
  = build_prompt encode decode find_all_text company
      (filter (fun p => extract_relevant_chunks encode find_all_text
                          (page_content p) <> [])
              scraped_pages).
Proof.
  unfold build_prompt. f_equal. f_equal.
  induction scraped_pages as [| p l IH]; [done |].
  rewrite filter_cons. case_decide as Hp.
  - by rewrite relevant_block_cons, (relevant_block_cons p (filter _ _)), IH.
  - rewrite relevant_block_cons, IH.
    unfold relevant_block at 1. cbn [fold_left].
    by rewrite Hp.
Qed.

End PromptFacts.
